(** * ByteStreamController: a bounded byte buffer between a producer and a consumer

    Shallow embedding of [TestTaskSecondSGK/src/async_controller.cpp] and
    [TestTaskSecondSGK/include/async_controller.hpp].

    - [size_t] values are [N]; the one addition the code performs on them
      wraps modulo 2^64 ([size_t_add]).  [std::ptrdiff_t] values are [Z].
    - [std::vector<std::byte>] and [std::span<const std::byte>] are
      [list Byte.byte]; [size()] is [size].
    - The object's mutable members form the record [controller]; every
      member function is a function on that record.
    - [std::condition_variable::wait_for] is run against a [schedule]: the
      activity of the other threads during each interval in which the waiting
      thread has released the mutex, up to the deadline.
    - Iterator arithmetic that leaves the range of the vector is undefined
      behaviour; [sync_get_data] then yields [Undefined].
    - [std::vector::reserve] beyond [max_size()] throws [std::length_error];
      [sync_get_data] then yields [Threw], with the controller as the
      unwinding leaves it.  Memory allocation itself is taken to succeed.

    Further down: the second version of [sync_get_data] that
    [TestTaskFirstSGK/src/elevator_controller.cpp] carries (module [V2]),
    and the elevator controller of that file (module [elevator]), whose
    [std::unordered_set<int>] members are finite sets of [Z]. *)

From Stdlib Require Import List NArith ZArith Bool Lia.
From Stdlib Require Import Init.Byte.
From Stdlib Require MSetList OrdersEx.
Import ListNotations.

Local Open Scope N_scope.

(** ** Platform constants (64-bit [size_t] and [ptrdiff_t]) *)

Module Platform.

Definition SIZE_MAX : N := 18446744073709551615.    (* 2^64 - 1 *)
Definition PTRDIFF_MAX : N := 9223372036854775807.  (* 2^63 - 1 *)

(** Unsigned addition of two [size_t] values. *)
Definition size_t_add (a b : N) : N := (a + b) mod 18446744073709551616.

(** [static_cast<std::ptrdiff_t>(n)] for a [size_t] value [n]. *)
Definition to_ptrdiff (n : N) : Z :=
  let w := n mod 18446744073709551616 in
  if w <=? PTRDIFF_MAX then Z.of_N w
  else (Z.of_N w - 18446744073709551616)%Z.

(** [std::vector<std::byte>::max_size()]. *)
Definition vector_max_size : N := PTRDIFF_MAX.

End Platform.
Import Platform.

(** ** Data model *)

Definition Byte := Byte.byte.
Definition ByteVec := list Byte.
Definition ByteSpan := list Byte.

Definition size (v : list Byte) : N := N.of_nat (length v).

(** [std::vector::empty]. *)
Definition empty (v : list Byte) : bool :=
  match v with
  | [] => true
  | _ :: _ => false
  end.

Definition DEFAULT_BUFFER_SIZE : N := 4096.
Definition MIN_READ_SIZE : N := 1.
Definition DEFAULT_READ_SIZE : N := 512.

Inductive ErrorCode : Type :=
| NoError
| BufferOverflow
| ControllerStopped
| Timeout.

Definition ErrorCode_eqb (a b : ErrorCode) : bool :=
  match a, b with
  | NoError, NoError
  | BufferOverflow, BufferOverflow
  | ControllerStopped, ControllerStopped
  | Timeout, Timeout => true
  | _, _ => false
  end.

Record Result : Type := mkResult {
  data : ByteVec;
  error : ErrorCode;
  dropped_bytes : N;
  buffer_size : N
}.

(** [Result::operator bool]. *)
Definition Result_bool (r : Result) : bool := ErrorCode_eqb (error r) NoError.

(** The data members of a [ByteStreamController]; the mutex and the condition
    variable carry no data and appear only through [wait_for] below. *)
Record controller : Type := mkController {
  buffer_ : ByteVec;
  max_buffer_size_ : N;
  stopped_ : bool
}.

Definition set_buffer (b : ByteVec) (c : controller) : controller :=
  mkController b (max_buffer_size_ c) (stopped_ c).

Definition set_stopped (f : bool) (c : controller) : controller :=
  mkController (buffer_ c) (max_buffer_size_ c) f.

(** ** Member functions *)

(** The constructor.  [buffer_.reserve(n)] throws [std::length_error] when
    [n > max_size()]; the object is then not constructed ([None]). *)
Definition ByteStreamController (max_buffer_size : N) : option controller :=
  if max_buffer_size <=? vector_max_size
  then Some (mkController [] max_buffer_size false)
  else None.

Definition stop (c : controller) : controller := set_stopped true c.

Definition start (c : controller) : controller := set_stopped false c.

(** The critical section of [async_add_data] (lines 30-41). *)
Definition async_add_data_locked (d : ByteSpan) (c : controller)
  : ErrorCode * controller :=
  if max_buffer_size_ c <? size_t_add (size (buffer_ c)) (size d)
  then (BufferOverflow, c)
  else (NoError, set_buffer (buffer_ c ++ d) c).

Definition async_add_data (d : ByteSpan) (c : controller)
  : ErrorCode * controller :=
  if stopped_ c then (ControllerStopped, c)
  else async_add_data_locked d c.

Definition current_buffer_size (c : controller) : N := size (buffer_ c).

Definition is_stopped (c : controller) : bool := stopped_ c.

(** [get_callback]: the closure calls [async_add_data] and drops its
    error code. *)
Definition get_callback : ByteSpan -> controller -> controller :=
  fun d c => snd (async_add_data d c).

(** ** The other threads *)

(** What another thread can do to the controller while [sync_get_data] has
    released the mutex inside [wait_for]. *)
Inductive action : Type :=
| EnvAdd (d : ByteSpan)        (* a producer calls [async_add_data] *)
| EnvAddLocked (d : ByteSpan)  (* a producer that read [stopped_] earlier
                                  enters its critical section *)
| EnvStop
| EnvStart.

Definition run_action (a : action) (c : controller) : controller :=
  match a with
  | EnvAdd d => snd (async_add_data d c)
  | EnvAddLocked d => snd (async_add_data_locked d c)
  | EnvStop => stop c
  | EnvStart => start c
  end.

Definition run_actions (acts : list action) (c : controller) : controller :=
  fold_left (fun st a => run_action a st) acts c.

(** One entry per blocking wait of the condition variable before the
    deadline; the wait of the last entry ends by timeout, the earlier ones by
    a notification or a spurious wake-up.  The empty schedule is a deadline
    that has already passed. *)
Definition schedule : Type := list (list action).

Definition run_schedule (sched : schedule) (c : controller) : controller :=
  fold_left (fun st acts => run_actions acts st) sched c.

(** [cv_.wait_for(lock, timeout, pred)]:
    [while (!pred()) if (wait_until(...) == timeout) return pred(); return true;] *)
Fixpoint wait_for (pred : controller -> bool) (sched : schedule) (c : controller)
  : bool * controller :=
  match sched with
  | [] => (pred c, c)
  | acts :: rest =>
      if pred c then (true, c)
      else wait_for pred rest (run_actions acts c)
  end.

(** The result of a call that may end in an exception or leave defined
    behaviour.  [Threw c'] is a [std::length_error] leaving the function:
    the local vector and the [unique_lock] are destroyed and the controller
    is [c']. *)
Inductive outcome : Type :=
| Returned (r : Result) (c' : controller)
| Threw (c' : controller)
| Undefined.

(** The wait predicate of [sync_get_data] (line 49). *)
Definition ready (min_bytes : N) (c : controller) : bool :=
  stopped_ c || (min_bytes <=? size (buffer_ c)).

(** Lines 58 and 59. *)
Definition bytes_to_take (max_bytes : N) (c : controller) : N :=
  N.min (size (buffer_ c)) max_bytes.

Definition actual_bytes (min_bytes max_bytes : N) (c : controller) : N :=
  N.max (bytes_to_take max_bytes c) min_bytes.

Definition sync_get_data (min_bytes max_bytes : N) (timeout : schedule)
  (c : controller) : outcome :=
  let (woke, c1) := wait_for (ready min_bytes) timeout c in
  if negb woke then
    Returned (mkResult [] Timeout 0 (size (buffer_ c1))) c1
  else if stopped_ c1 && empty (buffer_ c1) then
    Returned (mkResult [] ControllerStopped 0 0) c1
  else if vector_max_size <? actual_bytes min_bytes max_bytes c1 then
    (* line 62: [result.reserve(actual_bytes)] beyond [max_size()] *)
    Threw c1
  else
    let off := to_ptrdiff (actual_bytes min_bytes max_bytes c1) in
    (* [buffer_.begin() + off] must lie in [begin(), end()] *)
    if ((0 <=? off)%Z && (off <=? Z.of_N (size (buffer_ c1)))%Z)%bool then
      let result := firstn (Z.to_nat off) (buffer_ c1) in
      let c2 := set_buffer (skipn (Z.to_nat off) (buffer_ c1)) c1 in
      Returned (mkResult result NoError 0 (size (buffer_ c2))) c2
    else Undefined.

(** [sync_get_data()] with the default arguments of the header. *)
Definition sync_get_data_default (timeout : schedule) (c : controller) : outcome :=
  sync_get_data MIN_READ_SIZE SIZE_MAX timeout c.

(** ** Sequences of calls *)

(** A call of a public member function, with its arguments. *)
Inductive call : Type :=
| Call_async_add_data (d : ByteSpan)
| Call_sync_get_data (min_bytes max_bytes : N) (timeout : schedule)
| Call_stop
| Call_start
| Call_current_buffer_size
| Call_is_stopped.

(** The controller after one call, also when the call ends in an
    exception; [None] when the call has no defined behaviour. *)
Definition exec (k : call) (c : controller) : option controller :=
  match k with
  | Call_async_add_data d => Some (snd (async_add_data d c))
  | Call_sync_get_data min_bytes max_bytes timeout =>
      match sync_get_data min_bytes max_bytes timeout c with
      | Returned _ c' => Some c'
      | Threw c' => Some c'
      | Undefined => None
      end
  | Call_stop => Some (stop c)
  | Call_start => Some (start c)
  | Call_current_buffer_size => Some c
  | Call_is_stopped => Some c
  end.

Fixpoint exec_all (ks : list call) (c : controller) : option controller :=
  match ks with
  | [] => Some c
  | k :: rest =>
      match exec k c with
      | Some c' => exec_all rest c'
      | None => None
      end
  end.

(** A run of [async_add_data] calls by one producer, with the code each
    call returned. *)
Fixpoint append_all (ds : list ByteSpan) (c : controller)
  : list ErrorCode * controller :=
  match ds with
  | [] => ([], c)
  | d :: rest =>
      let (e, c1) := async_add_data d c in
      let (es, c2) := append_all rest c1 in
      (e :: es, c2)
  end.

(** ** Well-formed arguments

    No C++ object is larger than [PTRDIFF_MAX] bytes, so neither is the range
    a [ByteSpan] refers to. *)

Definition span_ok (d : ByteSpan) : bool := size d <=? PTRDIFF_MAX.

Definition action_ok (a : action) : bool :=
  match a with
  | EnvAdd d | EnvAddLocked d => span_ok d
  | EnvStop | EnvStart => true
  end.

Definition schedule_ok (sched : schedule) : bool :=
  forallb (forallb action_ok) sched.


(** The capacity invariant of a controller built with capacity [cap],
    together with what the constructor fixes for good: the capacity itself
    and its bound. *)
Definition capacity_inv (cap : N) (c : controller) : Prop :=
  size (buffer_ c) <= max_buffer_size_ c /\
  max_buffer_size_ c = cap /\
  cap <= vector_max_size.

(** ** Concrete data used in the examples *)

Definition b1 : Byte := x01.
Definition b2 : Byte := x02.
Definition b3 : Byte := x03.
Definition b4 : Byte := x04.
Definition b5 : Byte := x05.

(** Capacity 10, three bytes appended, then stopped. *)
Definition residual3 : controller :=
  stop (snd (async_add_data [b1; b2; b3] (mkController [] 10 false))).

(** Capacity 10, five bytes buffered, running. *)
Definition five : controller := mkController [b1; b2; b3; b4; b5] 10 false.

(** Capacity 16, ten bytes buffered, running. *)
Definition ten_bytes : ByteVec := [b1; b2; b3; b4; b5; b1; b2; b3; b4; b5].
Definition ten : controller := mkController ten_bytes 16 false.

(** Two waits before the deadline: a producer appends two bytes during the
    first, nothing happens during the second, which ends by timeout. *)
Definition two_wakeups : schedule := [[EnvAdd [b4; b5]]; []].


(** The session that meets the defect of line 59: three bytes appended, a
    stop, and a take asking for at least five. *)
Definition defect_session : list call :=
  [ Call_async_add_data [b1; b2; b3];
    Call_stop;
    Call_sync_get_data 5 10 [] ].


(** Three appends by one producer. *)
Definition three_appends : list ByteSpan := [[b1; b2]; []; [b3; b4; b5]].

(** ** The second version of [sync_get_data]

    [TestTaskFirstSGK/src/elevator_controller.cpp] holds, after the elevator
    (from line 108 on), a second version of the controller's member
    functions.  Its constructor, [stop], [start], [async_add_data],
    [current_buffer_size], [is_stopped] and [get_callback] are those above,
    statement for statement; [sync_get_data] (lines 154-190) differs, and is
    modelled here on the same [controller] and [schedule]. *)

Module V2.

(** Modelled from the spec: the [ErrorCode] enumeration this version is
    compiled against, whose header is not among the sources.  It has the
    four values of the first version and [InvalidArgs], which line 157 names
    (the spec's [InvalidArgument]). *)
Inductive ErrorCode : Type :=
| NoError
| BufferOverflow
| ControllerStopped
| Timeout
| InvalidArgs.

(** Modelled from the spec: the [Result] aggregate of this version, whose
    header is not among the sources; the four fields in the order of the
    first version's header, which the braced initialisers of lines 157-189
    fill by position. *)
Record Result : Type := mkResult {
  data : ByteVec;
  error : ErrorCode;
  dropped_bytes : N;
  buffer_size : N
}.

Inductive outcome : Type :=
| Returned (r : Result) (c' : controller)
| Undefined.

(** Lines 174-189. *)
Definition extract (max_bytes : N) (c1 : controller) : outcome :=
  let bytes_available := size (buffer_ c1) in
  let bytes_to_take := N.min bytes_available max_bytes in
  let off := to_ptrdiff bytes_to_take in
  if ((0 <=? off)%Z && (off <=? Z.of_N (size (buffer_ c1)))%Z)%bool then
    let result := firstn (Z.to_nat off) (buffer_ c1) in
    let c2 := set_buffer (skipn (Z.to_nat off) (buffer_ c1)) c1 in
    Returned (mkResult result
                (if stopped_ c2 then ControllerStopped else NoError)
                bytes_to_take (size (buffer_ c2))) c2
  else Undefined.

Definition sync_get_data (min_bytes max_bytes : N) (timeout : schedule)
  (c : controller) : outcome :=
  if max_bytes <? min_bytes then
    Returned (mkResult [] InvalidArgs 0 (size (buffer_ c))) c
  else
    let (woke, c1) := wait_for (ready min_bytes) timeout c in
    if negb woke then
      Returned (mkResult [] Timeout 0 (size (buffer_ c1))) c1
    else if stopped_ c1 then
      if empty (buffer_ c1) then
        Returned (mkResult [] ControllerStopped 0 0) c1
      else extract max_bytes c1
    else extract max_bytes c1.

End V2.

(** The codes of the first version among those of the second. *)
Definition v2_code (e : ErrorCode) : V2.ErrorCode :=
  match e with
  | NoError => V2.NoError
  | BufferOverflow => V2.BufferOverflow
  | ControllerStopped => V2.ControllerStopped
  | Timeout => V2.Timeout
  end.

(** ** The elevator controller

    Shallow embedding of [TestTaskFirstSGK/src/elevator_controller.cpp]
    (lines 1-108) and [TestTaskFirstSGK/include/elevator_controller.hpp].
    An [int] is a [Z]: the code compares floors and steps the current floor
    by one only behind a bound check, so no [int] operation can overflow. *)

(** [std::unordered_set<int>]: finite sets of integers. *)
Module IntSet := MSetList.Make OrdersEx.Z_as_OT.

Module elevator.

Local Open Scope Z_scope.

Inductive Direction : Type := UP | DOWN | IDLE.

Inductive ElevatorError : Type := InvalidFloor.

(** [std::expected<void, E>]. *)
Inductive expected (E : Type) : Type :=
| Ok
| Unexpected (e : E).
Arguments Ok {E}.
Arguments Unexpected {E} e.

Definition kMinFloor : Z := 1.
Definition kMaxFloor : Z := 9.

Record ElevatorController : Type := mkElevator {
  current_floor_ : Z;
  direction_ : Direction;
  internal_requests_ : IntSet.t;
  external_requests_ : IntSet.t
}.

(** The default constructor: the member initialisers of the header. *)
Definition initial : ElevatorController :=
  mkElevator kMinFloor IDLE IntSet.empty IntSet.empty.

Definition getCurrentFloor (e : ElevatorController) : Z := current_floor_ e.

Definition getCurrentDirection (e : ElevatorController) : Direction :=
  direction_ e.

Definition set_direction (d : Direction) (e : ElevatorController)
  : ElevatorController :=
  mkElevator (current_floor_ e) d (internal_requests_ e) (external_requests_ e).

Definition set_floor (f : Z) (e : ElevatorController) : ElevatorController :=
  mkElevator f (direction_ e) (internal_requests_ e) (external_requests_ e).

(** [internal_requests_.erase(current_floor_); external_requests_.erase(current_floor_);] *)
Definition erase_current (e : ElevatorController) : ElevatorController :=
  mkElevator (current_floor_ e) (direction_ e)
    (IntSet.remove (current_floor_ e) (internal_requests_ e))
    (IntSet.remove (current_floor_ e) (external_requests_ e)).

Definition validateFloor (floor : Z) : expected ElevatorError :=
  if (floor <? kMinFloor) || (floor >? kMaxFloor)
  then Unexpected InvalidFloor
  else Ok.

Definition hasRequests (e : ElevatorController) : bool :=
  negb (IntSet.is_empty (internal_requests_ e)) ||
  negb (IntSet.is_empty (external_requests_ e)).

Definition hasRequestsAbove (e : ElevatorController) : bool :=
  let is_above := fun floor => floor >? current_floor_ e in
  IntSet.exists_ is_above (internal_requests_ e) ||
  IntSet.exists_ is_above (external_requests_ e).

Definition hasRequestsBelow (e : ElevatorController) : bool :=
  let is_below := fun floor => floor <? current_floor_ e in
  IntSet.exists_ is_below (internal_requests_ e) ||
  IntSet.exists_ is_below (external_requests_ e).

Definition updateDirection (e : ElevatorController) : ElevatorController :=
  let e1 := erase_current e in
  if negb (hasRequests e1) then set_direction IDLE e1
  else
    match direction_ e1 with
    | UP => set_direction (if hasRequestsAbove e1 then UP else DOWN) e1
    | DOWN => set_direction (if hasRequestsBelow e1 then DOWN else UP) e1
    | IDLE =>
        if hasRequestsAbove e1 then set_direction UP e1
        else if hasRequestsBelow e1 then set_direction DOWN e1
        else e1
    end.

Definition addInternalRequest (floor : Z) (e : ElevatorController)
  : expected ElevatorError * ElevatorController :=
  match validateFloor floor with
  | Unexpected err => (Unexpected err, e)
  | Ok =>
      (Ok, updateDirection
             (mkElevator (current_floor_ e) (direction_ e)
                (IntSet.add floor (internal_requests_ e))
                (external_requests_ e)))
  end.

Definition addExternalRequest (floor : Z) (e : ElevatorController)
  : expected ElevatorError * ElevatorController :=
  match validateFloor floor with
  | Unexpected err => (Unexpected err, e)
  | Ok =>
      (Ok, updateDirection
             (mkElevator (current_floor_ e) (direction_ e)
                (internal_requests_ e)
                (IntSet.add floor (external_requests_ e))))
  end.

Definition move (e : ElevatorController) : ElevatorController :=
  match direction_ e with
  | IDLE => e
  | _ =>
      let e1 := erase_current e in
      let e2 :=
        match direction_ e1 with
        | UP =>
            if current_floor_ e1 <? kMaxFloor
            then set_floor (current_floor_ e1 + 1) e1 else e1
        | DOWN =>
            if current_floor_ e1 >? kMinFloor
            then set_floor (current_floor_ e1 - 1) e1 else e1
        | IDLE => e1
        end in
      updateDirection (erase_current e2)
  end.

(** [n] calls of [move]. *)
Fixpoint moves (n : nat) (e : ElevatorController) : ElevatorController :=
  match n with
  | O => e
  | S k => moves k (move e)
  end.

(** A call of a public member function that changes the controller. *)
Inductive call : Type :=
| Call_addInternalRequest (floor : Z)
| Call_addExternalRequest (floor : Z)
| Call_move.

Definition exec (k : call) (e : ElevatorController) : ElevatorController :=
  match k with
  | Call_addInternalRequest floor => snd (addInternalRequest floor e)
  | Call_addExternalRequest floor => snd (addExternalRequest floor e)
  | Call_move => move e
  end.

Definition exec_all (ks : list call) (e : ElevatorController)
  : ElevatorController :=
  fold_left (fun st k => exec k st) ks e.

(** Floor [f] is requested, from the cabin or from a landing. *)
Definition pending (e : ElevatorController) (f : Z) : Prop :=
  IntSet.In f (internal_requests_ e) \/ IntSet.In f (external_requests_ e).

(** What every controller reached from [initial] satisfies. *)
Definition well_formed (e : ElevatorController) : Prop :=
  kMinFloor <= current_floor_ e <= kMaxFloor /\
  (forall f, pending e f -> kMinFloor <= f <= kMaxFloor) /\
  ~ pending e (current_floor_ e) /\
  match direction_ e with
  | UP => exists f, pending e f /\ current_floor_ e < f
  | DOWN => exists f, pending e f /\ f < current_floor_ e
  | IDLE => forall f, ~ pending e f
  end.

End elevator.

(** * Properties *)

(** ** Sizes, wrap-around and casts *)

Lemma size_app (a b : list Byte) : size (a ++ b) = size a + size b.
Proof. unfold size. rewrite length_app. lia. Qed.

Lemma empty_true_iff (v : list Byte) : empty v = true <-> v = [].
Proof. destruct v; simpl; split; congruence. Qed.

Lemma size_firstn (n : nat) (v : list Byte) :
  size (firstn n v) = N.min (N.of_nat n) (size v).
Proof. unfold size. rewrite length_firstn. lia. Qed.

Lemma size_skipn (n : nat) (v : list Byte) :
  size (skipn n v) = size v - N.of_nat n.
Proof. unfold size. rewrite length_skipn. lia. Qed.

Lemma firstn_size (v : list Byte) : firstn (N.to_nat (size v)) v = v.
Proof. unfold size. rewrite Nat2N.id. apply firstn_all. Qed.

Lemma skipn_size (v : list Byte) : skipn (N.to_nat (size v)) v = [].
Proof. unfold size. rewrite Nat2N.id. apply skipn_all. Qed.

Lemma size_t_add_exact (a b : N) :
  a + b <= SIZE_MAX -> size_t_add a b = a + b.
Proof.
  unfold size_t_add, SIZE_MAX. intro H. apply N.mod_small. lia.
Qed.

Lemma to_ptrdiff_small (n : N) :
  n <= PTRDIFF_MAX -> to_ptrdiff n = Z.of_N n.
Proof.
  unfold to_ptrdiff, PTRDIFF_MAX. intro H.
  rewrite N.mod_small by lia.
  destruct (N.leb_spec n 9223372036854775807); [reflexivity | lia].
Qed.

(** A cast that comes out non-negative did not change the value. *)
Lemma to_ptrdiff_nonneg (n : N) :
  n <= SIZE_MAX -> (0 <= to_ptrdiff n)%Z -> to_ptrdiff n = Z.of_N n.
Proof.
  unfold to_ptrdiff, SIZE_MAX, PTRDIFF_MAX. intros H.
  rewrite N.mod_small by lia.
  destruct (N.leb_spec n 9223372036854775807); [reflexivity | lia].
Qed.

(** ** The wait *)

Lemma run_schedule_app (s1 s2 : schedule) (c : controller) :
  run_schedule (s1 ++ s2) c = run_schedule s2 (run_schedule s1 c).
Proof. unfold run_schedule. apply fold_left_app. Qed.

Lemma run_schedule_idle (sched : schedule) (c : controller) :
  (forall acts, In acts sched -> acts = []) -> run_schedule sched c = c.
Proof.
  revert c. induction sched as [|acts rest IH]; intros c Hidle; simpl.
  - reflexivity.
  - rewrite (Hidle acts (or_introl eq_refl)). simpl.
    apply IH. intros a Ha. apply Hidle. right. exact Ha.
Qed.

(** A predicate that already holds ends the wait at once: the schedule is
    not consulted and the controller is the one the call found. *)
Lemma wait_for_ready (pred : controller -> bool) (sched : schedule) (c : controller) :
  pred c = true -> wait_for pred sched c = (true, c).
Proof.
  intro H. destruct sched as [|acts rest]; simpl; rewrite H; reflexivity.
Qed.

(** A predicate that holds at no wake-up and not at the deadline makes the
    wait last the whole schedule and return [false]. *)
Lemma wait_for_starved (pred : controller -> bool) (sched : schedule) (c : controller) :
  (forall k, (k <= length sched)%nat ->
             pred (run_schedule (firstn k sched) c) = false) ->
  wait_for pred sched c = (false, run_schedule sched c).
Proof.
  revert c. induction sched as [|acts rest IH]; intros c H; simpl.
  - pose proof (H 0%nat (Nat.le_refl _)) as H0. simpl in H0.
    rewrite H0. reflexivity.
  - pose proof (H 0%nat (Nat.le_0_l _)) as H0. simpl in H0. rewrite H0.
    apply IH. intros k Hk.
    apply (H (S k)). simpl. lia.
Qed.

(** [wait_for] returns the value of the predicate on the controller it
    leaves behind. *)
Lemma wait_for_sound (pred : controller -> bool) (sched : schedule) (c : controller) :
  forall woke c1, wait_for pred sched c = (woke, c1) -> pred c1 = woke.
Proof.
  revert c. induction sched as [|acts rest IH]; intros c woke c1; simpl.
  - intro H. inversion H. reflexivity.
  - destruct (pred c) eqn:E.
    + intro H. inversion H. subst. exact E.
    + apply IH.
Qed.

(** The controller [wait_for] leaves behind is the one some prefix of the
    schedule produced. *)
Lemma wait_for_prefix (pred : controller -> bool) (sched : schedule) (c : controller) :
  exists k, (k <= length sched)%nat /\
            snd (wait_for pred sched c) = run_schedule (firstn k sched) c.
Proof.
  revert c. induction sched as [|acts rest IH]; intros c; simpl.
  - exists 0%nat. split; [lia | reflexivity].
  - destruct (pred c).
    + exists 0%nat. split; [lia | reflexivity].
    + destruct (IH (run_actions acts c)) as [k [Hk Hs]].
      exists (S k). split; [lia | exact Hs].
Qed.

(** ** [sync_get_data], branch by branch *)

(** Lines 48-52: the deadline passes with the predicate false. *)
Lemma sync_get_data_times_out (min_bytes max_bytes : N) (timeout : schedule)
  (c : controller) :
  (forall k, (k <= length timeout)%nat ->
             ready min_bytes (run_schedule (firstn k timeout) c) = false) ->
  sync_get_data min_bytes max_bytes timeout c =
    Returned (mkResult [] Timeout 0 (size (buffer_ (run_schedule timeout c))))
             (run_schedule timeout c).
Proof.
  intro H. unfold sync_get_data.
  rewrite (wait_for_starved _ _ _ H). reflexivity.
Qed.

(** Lines 54-56: stopped and nothing left. *)
Lemma sync_get_data_stopped_empty (min_bytes max_bytes : N) (timeout : schedule)
  (c : controller) :
  stopped_ c = true -> buffer_ c = [] ->
  sync_get_data min_bytes max_bytes timeout c =
    Returned (mkResult [] ControllerStopped 0 0) c.
Proof.
  intros Hs Hb. unfold sync_get_data.
  rewrite wait_for_ready by (unfold ready; rewrite Hs; reflexivity).
  simpl. rewrite Hs, Hb. reflexivity.
Qed.

(** Lines 58-71 when the count computed on line 59 fits the buffer. *)
Lemma sync_get_data_extracts (min_bytes max_bytes : N) (timeout : schedule)
  (c : controller) :
  ready min_bytes c = true ->
  stopped_ c && empty (buffer_ c) = false ->
  size (buffer_ c) <= PTRDIFF_MAX ->
  actual_bytes min_bytes max_bytes c <= size (buffer_ c) ->
  let n := N.to_nat (actual_bytes min_bytes max_bytes c) in
  sync_get_data min_bytes max_bytes timeout c =
    Returned (mkResult (firstn n (buffer_ c)) NoError 0
                       (size (skipn n (buffer_ c))))
             (set_buffer (skipn n (buffer_ c)) c).
Proof.
  intros Hr Hne Hmax Hfit n. unfold sync_get_data.
  rewrite (wait_for_ready _ _ _ Hr). simpl. rewrite Hne.
  destruct (N.ltb_spec vector_max_size (actual_bytes min_bytes max_bytes c))
    as [Hbig|_]; [unfold vector_max_size in Hbig; lia|].
  rewrite to_ptrdiff_small by lia.
  replace (Z.to_nat (Z.of_N (actual_bytes min_bytes max_bytes c)))
    with n by (subst n; lia).
  destruct (Z.leb_spec 0 (Z.of_N (actual_bytes min_bytes max_bytes c))); [|lia].
  destruct (Z.leb_spec (Z.of_N (actual_bytes min_bytes max_bytes c))
                       (Z.of_N (size (buffer_ c)))); [|lia].
  reflexivity.
Qed.

(** Lines 58-69 when the wait ended on [stopped_] with fewer than
    [min_bytes] bytes buffered: line 59 raises the count to [min_bytes], the
    reservation of line 62 succeeds, and [buffer_.begin() + actual_bytes] is
    past the end. *)
Lemma sync_get_data_past_the_end (min_bytes max_bytes : N) (timeout : schedule)
  (c : controller) :
  stopped_ c = true ->
  buffer_ c <> [] ->
  size (buffer_ c) < min_bytes ->
  min_bytes <= PTRDIFF_MAX ->
  sync_get_data min_bytes max_bytes timeout c = Undefined.
Proof.
  intros Hs Hne Hlt Hmin. unfold sync_get_data.
  rewrite wait_for_ready by (unfold ready; rewrite Hs; reflexivity).
  simpl. rewrite Hs. simpl.
  destruct (empty (buffer_ c)) eqn:E.
  - apply empty_true_iff in E. contradiction.
  - replace (actual_bytes min_bytes max_bytes c)
      with min_bytes by (unfold actual_bytes, bytes_to_take; lia).
    destruct (N.ltb_spec vector_max_size min_bytes) as [Hbig|_];
      [unfold vector_max_size in Hbig; lia|].
    rewrite (to_ptrdiff_small _ Hmin).
    destruct (Z.leb_spec 0 (Z.of_N min_bytes)); [|lia].
    destruct (Z.leb_spec (Z.of_N min_bytes) (Z.of_N (size (buffer_ c))));
      [lia | reflexivity].
Qed.

(** Line 62 when the wait ended on [stopped_] with bytes buffered and
    [min_bytes] is beyond [max_size()]: the reservation throws, before any
    byte is read or erased. *)
Lemma sync_get_data_throws (min_bytes max_bytes : N) (timeout : schedule)
  (c : controller) :
  stopped_ c = true ->
  buffer_ c <> [] ->
  vector_max_size < min_bytes ->
  sync_get_data min_bytes max_bytes timeout c = Threw c.
Proof.
  intros Hs Hne Hbig. unfold sync_get_data.
  rewrite wait_for_ready by (unfold ready; rewrite Hs; reflexivity).
  simpl. rewrite Hs. simpl.
  destruct (empty (buffer_ c)) eqn:E.
  - apply empty_true_iff in E. contradiction.
  - destruct (N.ltb_spec vector_max_size (actual_bytes min_bytes max_bytes c))
      as [_|Hsmall]; [reflexivity|].
    unfold actual_bytes in Hsmall. lia.
Qed.

(** Whatever a call that reports [NoError] returns holds at least
    [min_bytes] bytes. *)
Lemma sync_get_data_NoError_min (min_bytes max_bytes : N) (timeout : schedule)
  (c c' : controller) (r : Result) :
  min_bytes <= SIZE_MAX -> max_bytes <= SIZE_MAX ->
  sync_get_data min_bytes max_bytes timeout c = Returned r c' ->
  error r = NoError ->
  min_bytes <= size (data r).
Proof.
  intros Hmin Hmax. unfold sync_get_data.
  destruct (wait_for (ready min_bytes) timeout c) as [woke c1].
  destruct woke; simpl.
  2:{ intros H He. inversion H; subst. discriminate He. }
  destruct (stopped_ c1 && empty (buffer_ c1)).
  { intros H He. inversion H; subst. discriminate He. }
  pose proof (eq_refl (actual_bytes min_bytes max_bytes c1)) as Hdef.
  unfold actual_bytes at 2, bytes_to_take in Hdef.
  set (a := actual_bytes min_bytes max_bytes c1) in *.
  destruct (vector_max_size <? a); [discriminate|].
  destruct (Z.leb_spec 0 (to_ptrdiff a)) as [Hnn|]; simpl; [|discriminate].
  assert (Ha : a <= SIZE_MAX) by lia.
  rewrite (to_ptrdiff_nonneg _ Ha Hnn).
  destruct (Z.leb_spec (Z.of_N a) (Z.of_N (size (buffer_ c1)))) as [Hle|];
    [|discriminate].
  intros H _. inversion H; subst r c'. simpl.
  rewrite size_firstn. lia.
Qed.

(** ** [async_add_data] *)

Lemma async_add_data_locked_fits (d : ByteSpan) (c : controller) :
  size (buffer_ c) + size d <= max_buffer_size_ c ->
  max_buffer_size_ c <= SIZE_MAX ->
  async_add_data_locked d c = (NoError, set_buffer (buffer_ c ++ d) c).
Proof.
  intros Hfit Hcap. unfold async_add_data_locked.
  rewrite size_t_add_exact by lia.
  destruct (N.ltb_spec (max_buffer_size_ c) (size (buffer_ c) + size d));
    [lia | reflexivity].
Qed.

Lemma async_add_data_locked_overflows (d : ByteSpan) (c : controller) :
  max_buffer_size_ c < size (buffer_ c) + size d ->
  size (buffer_ c) + size d <= SIZE_MAX ->
  async_add_data_locked d c = (BufferOverflow, c).
Proof.
  intros Hover Hrep. unfold async_add_data_locked.
  rewrite size_t_add_exact by lia.
  destruct (N.ltb_spec (max_buffer_size_ c) (size (buffer_ c) + size d));
    [reflexivity | lia].
Qed.

(** The sizes of two live objects add up without wrapping. *)
Lemma sizes_representable (cap : N) (d : ByteSpan) (c : controller) :
  capacity_inv cap c -> span_ok d = true ->
  size (buffer_ c) + size d <= SIZE_MAX.
Proof.
  unfold capacity_inv, span_ok, vector_max_size, PTRDIFF_MAX, SIZE_MAX.
  intros [Hb [Hc Hv]] Hd. apply N.leb_le in Hd. lia.
Qed.

(** ** The byte count of a take *)

(** C1 (does not hold of the code).  The claim: a take that goes on to remove
    data removes [min (length buffer) max_bytes] bytes.  Line 59 raises the
    count to [min_bytes].  On the stopped controller [residual3] (3 bytes)
    a take with [min_bytes = 5], [max_bytes = 10] computes 5 where the claim
    has 3, and runs past the end of the buffer; on [five] a take with
    [min_bytes = 4], [max_bytes = 2] removes 4 bytes where the claim has 2. *)
Theorem sync_get_data_count_raised_to_min_bytes :
  (bytes_to_take 10 residual3 = 3 /\
   actual_bytes 5 10 residual3 = 5 /\
   sync_get_data 5 10 [] residual3 = Undefined) /\
  (bytes_to_take 2 five = 2 /\
   actual_bytes 4 2 five = 4 /\
   sync_get_data 4 2 [] five =
     Returned (mkResult [b1; b2; b3; b4] NoError 0 1)
              (mkController [b5] 10 false)).
Proof. repeat split; vm_compute; reflexivity. Qed.

(** C2 (does not hold of the code).  The claim: [actual_bytes] never exceeds
    the buffer length, also when the controller is stopped with
    [0 < length buffer < min_bytes].  On [residual3], with the read size the
    consumer of [main.cpp] uses, [actual_bytes] is 512 for a buffer of 3
    bytes and the iterator [buffer_.begin() + 512] is past the end. *)
Theorem sync_get_data_reads_past_the_end :
  is_stopped residual3 = true /\
  current_buffer_size residual3 = 3 /\
  actual_bytes DEFAULT_READ_SIZE DEFAULT_READ_SIZE residual3 = 512 /\
  sync_get_data DEFAULT_READ_SIZE DEFAULT_READ_SIZE [] residual3 = Undefined.
Proof.
  split; [reflexivity|]. split; [reflexivity|].
  split; [vm_compute; reflexivity|].
  apply sync_get_data_past_the_end.
  - reflexivity.
  - simpl. discriminate.
  - vm_compute. reflexivity.
  - vm_compute. discriminate.
Qed.

(** ** Draining a stopped controller *)

(** C3 (does not hold of the code).  The claim: the residual bytes of a
    stopped channel are handed over with status [ControllerStopped], and a
    take never reports [NoError] with fewer than [min_bytes] bytes.  On
    [residual3], the spec's scenario, [sync_get_data(0, 10)] returns the
    three bytes with [NoError]: line 71 reports [NoError] for every
    extraction.  The second version of the function returns them with
    [ControllerStopped], as the claim has it.  Both end the stream with
    [ControllerStopped] and no data.  With fewer than [min_bytes] bytes left
    ([sync_get_data(5, 10)]) the first version runs past the end of the
    buffer, where the second returns the three bytes with
    [ControllerStopped]. *)
Theorem drained_bytes_reported_NoError :
  sync_get_data 0 10 [] residual3 =
    Returned (mkResult [b1; b2; b3] NoError 0 0) (mkController [] 10 true) /\
  V2.sync_get_data 0 10 [] residual3 =
    V2.Returned (V2.mkResult [b1; b2; b3] V2.ControllerStopped 3 0)
                (mkController [] 10 true) /\
  sync_get_data 0 10 [] (mkController [] 10 true) =
    Returned (mkResult [] ControllerStopped 0 0) (mkController [] 10 true) /\
  V2.sync_get_data 0 10 [] (mkController [] 10 true) =
    V2.Returned (V2.mkResult [] V2.ControllerStopped 0 0)
                (mkController [] 10 true) /\
  sync_get_data 5 10 [] residual3 = Undefined /\
  V2.sync_get_data 5 10 [] residual3 =
    V2.Returned (V2.mkResult [b1; b2; b3] V2.ControllerStopped 3 0)
                (mkController [] 10 true).
Proof. repeat split; vm_compute; reflexivity. Qed.

(** ** Arguments with [min_bytes > max_bytes] *)

(** C4 (does not hold of the code).  The claim: a take with
    [min_bytes > max_bytes] fails at once with an invalid-argument status,
    without waiting and without touching the buffer.  With the spec's
    arguments, [sync_get_data(10, 3)] on the ten bytes of [ten] removes all
    ten and reports [NoError]; on an empty running controller it waits,
    through a producer's append, until the deadline and reports [Timeout].
    The function never compares the two arguments.  The second version of
    the function returns [InvalidArgs] on both controllers, without waiting
    and leaving them as they were, as the claim has it. *)
Theorem min_over_max_goes_unchecked :
  sync_get_data 10 3 [] ten =
    Returned (mkResult ten_bytes NoError 0 0) (mkController [] 16 false) /\
  V2.sync_get_data 10 3 [] ten =
    V2.Returned (V2.mkResult [] V2.InvalidArgs 0 10) ten /\
  sync_get_data 10 3 two_wakeups (mkController [] 16 false) =
    Returned (mkResult [] Timeout 0 2) (mkController [b4; b5] 16 false) /\
  V2.sync_get_data 10 3 two_wakeups (mkController [] 16 false) =
    V2.Returned (V2.mkResult [] V2.InvalidArgs 0 0) (mkController [] 16 false).
Proof. repeat split; vm_compute; reflexivity. Qed.

(** ** Construction *)

(** C5, as stated, fails: capacity 0 is accepted, and the controller it
    yields answers calls. *)
Lemma zero_capacity_is_constructed :
  ByteStreamController 0 = Some (mkController [] 0 false) /\
  async_add_data [] (mkController [] 0 false) =
    (NoError, mkController [] 0 false) /\
  sync_get_data 0 0 [] (mkController [] 0 false) =
    Returned (mkResult [] NoError 0 0) (mkController [] 0 false).
Proof. repeat split; vm_compute; reflexivity. Qed.

(** C5, amended.  The constructor does not look at the sign of the
    capacity: capacity 0 yields a running controller with an empty buffer.
    That controller takes the empty append and rejects every other one with
    [BufferOverflow], staying empty. *)
Theorem zero_capacity_controller (d : ByteSpan) :
  size d <= SIZE_MAX ->
  ByteStreamController 0 = Some (mkController [] 0 false) /\
  async_add_data d (mkController [] 0 false) =
    (if empty d then NoError else BufferOverflow, mkController [] 0 false).
Proof.
  intro Hd. split; [reflexivity|].
  destruct d as [|x d].
  - reflexivity.
  - unfold async_add_data. simpl stopped_. cbv iota.
    rewrite async_add_data_locked_overflows.
    + reflexivity.
    + simpl buffer_. simpl max_buffer_size_. unfold size. simpl length. lia.
    + simpl buffer_. exact Hd.
Qed.

Lemma zero_capacity_controller_witness :
  ByteStreamController 0 = Some (mkController [] 0 false) /\
  async_add_data [b1] (mkController [] 0 false) =
    (BufferOverflow, mkController [] 0 false).
Proof.
  apply (zero_capacity_controller [b1]). vm_compute. discriminate.
Defined.

(** ** Rejected appends *)

(** C6.  On a running controller, an append that would take the buffer
    beyond its capacity returns [BufferOverflow] and leaves the controller,
    hence the buffer, exactly as it was: no prefix of the data is stored.
    (The sum of the two sizes is below 2^64, as it is for any two objects
    that exist at once.) *)
Theorem async_add_data_overflow (d : ByteSpan) (c : controller) :
  stopped_ c = false ->
  size (buffer_ c) + size d <= SIZE_MAX ->
  max_buffer_size_ c < size (buffer_ c) + size d ->
  async_add_data d c = (BufferOverflow, c).
Proof.
  intros Hs Hrep Hover. unfold async_add_data. rewrite Hs.
  apply async_add_data_locked_overflows; assumption.
Qed.

Lemma async_add_data_overflow_witness :
  async_add_data ten_bytes five = (BufferOverflow, five).
Proof.
  apply (async_add_data_overflow ten_bytes five).
  - reflexivity.
  - vm_compute. discriminate.
  - vm_compute. reflexivity.
Defined.

(** C9.  On a stopped controller an append returns [ControllerStopped] and
    leaves the controller, hence the content and length of the buffer,
    exactly as it was. *)
Theorem async_add_data_stopped (d : ByteSpan) (c : controller) :
  stopped_ c = true ->
  async_add_data d c = (ControllerStopped, c).
Proof.
  intro Hs. unfold async_add_data. rewrite Hs. reflexivity.
Qed.

Lemma async_add_data_stopped_witness :
  async_add_data [b4; b5] residual3 = (ControllerStopped, residual3).
Proof.
  apply (async_add_data_stopped [b4; b5] residual3). reflexivity.
Defined.

(** ** Timeout *)

(** C10.  With [min_bytes >= 1], if at every wake-up and at the deadline the
    controller is running and holds fewer than [min_bytes] bytes, the call
    returns [Timeout] with no data, and the controller it leaves is the one
    the other threads produced: the call itself changed nothing.  When the
    other threads did nothing, the controller is the one the call found. *)
Theorem sync_get_data_timeout (min_bytes max_bytes : N) (timeout : schedule)
  (c : controller) :
  1 <= min_bytes ->
  (forall k, (k <= length timeout)%nat ->
             stopped_ (run_schedule (firstn k timeout) c) = false /\
             size (buffer_ (run_schedule (firstn k timeout) c)) < min_bytes) ->
  sync_get_data min_bytes max_bytes timeout c =
    Returned (mkResult [] Timeout 0 (size (buffer_ (run_schedule timeout c))))
             (run_schedule timeout c) /\
  ((forall acts, In acts timeout -> acts = []) ->
   sync_get_data min_bytes max_bytes timeout c =
     Returned (mkResult [] Timeout 0 (size (buffer_ c))) c).
Proof.
  intros _ H.
  assert (E : sync_get_data min_bytes max_bytes timeout c =
              Returned (mkResult [] Timeout 0
                          (size (buffer_ (run_schedule timeout c))))
                       (run_schedule timeout c)).
  { apply sync_get_data_times_out. intros k Hk.
    destruct (H k Hk) as [Hs Hb]. unfold ready. rewrite Hs. simpl.
    apply N.leb_gt. exact Hb. }
  split.
  - exact E.
  - intro Hidle. rewrite E, (run_schedule_idle _ _ Hidle). reflexivity.
Qed.

Lemma sync_get_data_timeout_witness :
  sync_get_data 5 5 [[]; []] (mkController [] 10 false) =
    Returned (mkResult [] Timeout 0 0) (mkController [] 10 false) /\
  sync_get_data 5 5 two_wakeups (mkController [] 10 false) =
    Returned (mkResult [] Timeout 0 2) (mkController [b4; b5] 10 false).
Proof.
  split.
  - refine (proj2 (sync_get_data_timeout 5 5 [[]; []]
                     (mkController [] 10 false) _ _) _).
    + vm_compute. discriminate.
    + intros k Hk. destruct k as [|[|[|k]]]; simpl in Hk; try lia;
        split; vm_compute; reflexivity.
    + intros acts [H|[H|[]]]; symmetry; exact H.
  - refine (proj1 (sync_get_data_timeout 5 5 two_wakeups
                     (mkController [] 10 false) _ _)).
    + vm_compute. discriminate.
    + intros k Hk. destruct k as [|[|[|k]]]; simpl in Hk; try lia;
        split; vm_compute; reflexivity.
Defined.

(** ** The capacity invariant *)

Section Invariant.

Variable cap : N.

Lemma inv_set_stopped (f : bool) (c : controller) :
  capacity_inv cap c -> capacity_inv cap (set_stopped f c).
Proof. unfold capacity_inv. simpl. tauto. Qed.

Lemma inv_shrink (n : nat) (c : controller) :
  capacity_inv cap c -> capacity_inv cap (set_buffer (skipn n (buffer_ c)) c).
Proof.
  unfold capacity_inv. simpl. intros [Hb [Hc Hv]].
  rewrite size_skipn. repeat split; try assumption. lia.
Qed.

Lemma inv_async_add_data_locked (d : ByteSpan) (c : controller) :
  span_ok d = true -> capacity_inv cap c -> capacity_inv cap (snd (async_add_data_locked d c)).
Proof.
  intros Hd Hi. pose proof (sizes_representable cap d c Hi Hd) as Hrep.
  unfold async_add_data_locked. rewrite size_t_add_exact by exact Hrep.
  destruct (N.ltb_spec (max_buffer_size_ c) (size (buffer_ c) + size d))
    as [Hover|Hfit]; simpl.
  - exact Hi.
  - destruct Hi as [Hb [Hc Hv]]. unfold capacity_inv. simpl.
    rewrite size_app. repeat split; assumption.
Qed.

Lemma inv_async_add_data (d : ByteSpan) (c : controller) :
  span_ok d = true -> capacity_inv cap c -> capacity_inv cap (snd (async_add_data d c)).
Proof.
  intros Hd Hi. unfold async_add_data. destruct (stopped_ c); simpl.
  - exact Hi.
  - apply inv_async_add_data_locked; assumption.
Qed.

Lemma inv_run_action (a : action) (c : controller) :
  action_ok a = true -> capacity_inv cap c -> capacity_inv cap (run_action a c).
Proof.
  destruct a as [d|d| |]; simpl; intros Hok Hi.
  - apply inv_async_add_data; assumption.
  - apply inv_async_add_data_locked; assumption.
  - apply inv_set_stopped. exact Hi.
  - apply inv_set_stopped. exact Hi.
Qed.

Lemma inv_run_actions (acts : list action) (c : controller) :
  forallb action_ok acts = true -> capacity_inv cap c -> capacity_inv cap (run_actions acts c).
Proof.
  revert c. induction acts as [|a rest IH]; simpl; intros c Hok Hi.
  - exact Hi.
  - apply andb_true_iff in Hok. destruct Hok as [Ha Hrest].
    apply IH; [exact Hrest | apply inv_run_action; assumption].
Qed.

(** The invariant also holds while the consumer is blocked. *)
Lemma inv_wait_for (pred : controller -> bool) (sched : schedule)
  (c : controller) :
  schedule_ok sched = true -> capacity_inv cap c -> capacity_inv cap (snd (wait_for pred sched c)).
Proof.
  revert c. induction sched as [|acts rest IH]; simpl; intros c Hok Hi.
  - exact Hi.
  - apply andb_true_iff in Hok. destruct Hok as [Ha Hrest].
    destruct (pred c); simpl.
    + exact Hi.
    + apply IH; [exact Hrest | apply inv_run_actions; assumption].
Qed.





Lemma inv_constructed (c : controller) :
  ByteStreamController cap = Some c -> capacity_inv cap c.
Proof.
  unfold ByteStreamController.
  destruct (N.leb_spec cap vector_max_size) as [Hle|]; [|discriminate].
  intro H. inversion H; subst. unfold capacity_inv, size. simpl.
  repeat split; [lia | exact Hle].
Qed.

End Invariant.

(** C7 (does not hold of the code).  The claim: the buffer holds between 0
    and [capacity] bytes in every state reached by any sequence of public
    calls from a fresh channel.  In [defect_session], on a fresh controller
    of capacity 10, the first two calls leave three bytes and the stop flag
    set; the take then computes [actual_bytes = 5] for three bytes and
    erases [buffer_.begin(), buffer_.begin() + 5): the call has no defined
    behaviour and the session reaches no state for the invariant to hold
    in.  The second version of the function returns from the same call with
    the buffer empty. *)
Theorem capacity_invariant_lost_at_defect :
  ByteStreamController 10 = Some (mkController [] 10 false) /\
  exec_all (firstn 2 defect_session) (mkController [] 10 false) = Some residual3 /\
  current_buffer_size residual3 = 3 /\
  actual_bytes 5 10 residual3 = 5 /\
  sync_get_data 5 10 [] residual3 = Undefined /\
  exec_all defect_session (mkController [] 10 false) = None /\
  V2.sync_get_data 5 10 [] residual3 =
    V2.Returned (V2.mkResult [b1; b2; b3] V2.ControllerStopped 3 0)
                (mkController [] 10 true).
Proof. repeat split; vm_compute; reflexivity. Qed.



(** ** First in, first out *)

(** Appends that fit are all accepted and leave the buffer extended by the
    data in call order. *)
Lemma append_all_fits (ds : list ByteSpan) (c : controller) :
  stopped_ c = false ->
  size (buffer_ c) + size (concat ds) <= max_buffer_size_ c ->
  max_buffer_size_ c <= SIZE_MAX ->
  append_all ds c =
    (map (fun _ => NoError) ds, set_buffer (buffer_ c ++ concat ds) c).
Proof.
  revert c. induction ds as [|d rest IH]; intros c Hs Hfit Hcap; simpl.
  - rewrite app_nil_r. destruct c; reflexivity.
  - simpl in Hfit. rewrite size_app in Hfit.
    unfold async_add_data. rewrite Hs.
    rewrite async_add_data_locked_fits by lia.
    rewrite IH.
    + simpl. rewrite <- app_assoc. reflexivity.
    + exact Hs.
    + simpl. rewrite size_app. lia.
    + exact Hcap.
Qed.

(** C8.  On a freshly constructed controller of capacity [cap], appends
    whose total length is at most [cap] all return [NoError], and one take
    with [min_bytes] equal to that total and [max_bytes] at least as large
    returns exactly the appended bytes in call order, with [NoError], and
    leaves the buffer empty. *)
Theorem fifo_round_trip (cap max_bytes : N) (c0 : controller)
  (ds : list ByteSpan) (timeout : schedule) :
  ByteStreamController cap = Some c0 ->
  size (concat ds) <= cap ->
  size (concat ds) <= max_bytes ->
  Forall (fun e => e = NoError) (fst (append_all ds c0)) /\
  sync_get_data (size (concat ds)) max_bytes timeout (snd (append_all ds c0)) =
    Returned (mkResult (concat ds) NoError 0 0) c0.
Proof.
  intros Hnew Htot Hmax.
  pose proof (inv_constructed cap c0 Hnew) as [_ [Hcap Hv]].
  unfold ByteStreamController in Hnew.
  destruct (cap <=? vector_max_size); [|discriminate].
  inversion Hnew; subst c0. clear Hnew. simpl in Hcap.
  unfold vector_max_size, PTRDIFF_MAX in Hv.
  rewrite append_all_fits;
    [ | reflexivity | simpl; unfold SIZE_MAX; lia | simpl; unfold SIZE_MAX; lia ].
  simpl fst. simpl snd. unfold set_buffer. simpl.
  split.
  - apply Forall_forall. intros e He. apply in_map_iff in He.
    destruct He as [d [He _]]. symmetry. exact He.
  - set (c1 := mkController (concat ds) cap false).
    assert (Ha : actual_bytes (size (concat ds)) max_bytes c1 = size (concat ds))
      by (unfold actual_bytes, bytes_to_take; simpl; lia).
    rewrite sync_get_data_extracts.
    + rewrite Ha. simpl buffer_. rewrite firstn_size, skipn_size. reflexivity.
    + unfold ready. simpl. rewrite N.leb_refl. reflexivity.
    + reflexivity.
    + simpl. unfold PTRDIFF_MAX. lia.
    + rewrite Ha. simpl. lia.
Qed.

Lemma fifo_round_trip_witness :
  fst (append_all three_appends (mkController [] 10 false)) =
    [NoError; NoError; NoError] /\
  sync_get_data 5 8 two_wakeups (snd (append_all three_appends (mkController [] 10 false))) =
    Returned (mkResult [b1; b2; b3; b4; b5] NoError 0 0) (mkController [] 10 false).
Proof.
  split; [vm_compute; reflexivity|].
  apply (proj2 (fifo_round_trip 10 8 (mkController [] 10 false) three_appends
                  two_wakeups eq_refl
                  ltac:(vm_compute; discriminate)
                  ltac:(vm_compute; discriminate))).
Defined.

(** * Further properties of the controller *)

(** ** Appends *)

(** X1.  An append returns [NoError] exactly when the controller is running
    and the data fits in what is left of the capacity; the buffer is then
    the old buffer followed by all of the data.  With any other return code
    the controller is unchanged. *)
Theorem async_add_data_accepts (d : ByteSpan) (c : controller) :
  size (buffer_ c) + size d <= SIZE_MAX ->
  (fst (async_add_data d c) = NoError <->
   stopped_ c = false /\ size (buffer_ c) + size d <= max_buffer_size_ c) /\
  snd (async_add_data d c) =
    (if ErrorCode_eqb (fst (async_add_data d c)) NoError
     then set_buffer (buffer_ c ++ d) c else c).
Proof.
  intro Hrep. unfold async_add_data, async_add_data_locked.
  rewrite size_t_add_exact by exact Hrep.
  destruct (stopped_ c); simpl.
  - split; [|reflexivity]. split; [discriminate | intros [H _]; discriminate].
  - destruct (N.ltb_spec (max_buffer_size_ c) (size (buffer_ c) + size d));
      simpl; (split; [|reflexivity]).
    + split; [discriminate | intros [_ H']; lia].
    + split; [intros _; split; [reflexivity | assumption] | reflexivity].
Qed.

Lemma async_add_data_accepts_witness :
  async_add_data [b4; b5] (mkController [b1; b2; b3] 10 false) =
    (NoError, mkController [b1; b2; b3; b4; b5] 10 false).
Proof.
  destruct (async_add_data_accepts [b4; b5]
              (mkController [b1; b2; b3] 10 false)
              ltac:(vm_compute; discriminate)) as [Hiff Hst].
  assert (He : fst (async_add_data [b4; b5] (mkController [b1; b2; b3] 10 false))
               = NoError).
  { apply Hiff. split; [reflexivity | vm_compute; discriminate]. }
  apply injective_projections.
  - exact He.
  - rewrite Hst, He. reflexivity.
Defined.

(** ** Takes *)

(** X2.  Whatever a take returns, the returned bytes followed by the bytes
    left in the buffer are the buffer as it was when the wait ended, with
    all that the other threads appended until then: nothing is lost,
    duplicated or reordered.  The [buffer_size] field is the buffer length
    after the call, [dropped_bytes] is 0, and the call changes neither the
    stop flag nor the capacity. *)
Theorem sync_get_data_conserves (min_bytes max_bytes : N) (timeout : schedule)
  (c c' : controller) (r : Result) :
  sync_get_data min_bytes max_bytes timeout c = Returned r c' ->
  let c1 := snd (wait_for (ready min_bytes) timeout c) in
  data r ++ buffer_ c' = buffer_ c1 /\
  stopped_ c' = stopped_ c1 /\
  max_buffer_size_ c' = max_buffer_size_ c1 /\
  buffer_size r = current_buffer_size c' /\
  dropped_bytes r = 0.
Proof.
  unfold sync_get_data.
  destruct (wait_for (ready min_bytes) timeout c) as [woke c1].
  simpl snd. intro H. destruct woke; simpl in H.
  - destruct (stopped_ c1 && empty (buffer_ c1)) eqn:E.
    + inversion H; subst r c'. simpl.
      apply andb_true_iff in E. destruct E as [_ E].
      apply empty_true_iff in E. unfold current_buffer_size.
      rewrite E. repeat split; reflexivity.
    + destruct (vector_max_size <? actual_bytes min_bytes max_bytes c1);
        [discriminate|].
      match type of H with
      | (if ?b then _ else _) = _ => destruct b
      end; [|discriminate].
      inversion H; subst r c'. simpl.
      rewrite firstn_skipn. repeat split; reflexivity.
  - inversion H; subst r c'. simpl. repeat split; reflexivity.
Qed.

Lemma sync_get_data_conserves_witness :
  data (mkResult [b1; b2; b3; b4] NoError 0 1) ++ buffer_ (mkController [b5] 10 false)
    = [b1; b2; b3; b4; b5] /\
  stopped_ (mkController [b5] 10 false) = false /\
  max_buffer_size_ (mkController [b5] 10 false) = 10%N /\
  buffer_size (mkResult [b1; b2; b3; b4] NoError 0 1)
    = current_buffer_size (mkController [b5] 10 false) /\
  dropped_bytes (mkResult [b1; b2; b3; b4] NoError 0 1) = 0%N.
Proof.
  exact (sync_get_data_conserves 4 4 two_wakeups
           (mkController [b1; b2; b3] 10 false) (mkController [b5] 10 false)
           (mkResult [b1; b2; b3; b4] NoError 0 1) eq_refl).
Defined.

(** X3.  With [min_bytes <= max_bytes], a take never returns more than
    [max_bytes] bytes, and when it reports [NoError] it returns at least
    [min_bytes]. *)
Theorem sync_get_data_within_bounds (min_bytes max_bytes : N)
  (timeout : schedule) (c c' : controller) (r : Result) :
  min_bytes <= max_bytes -> max_bytes <= SIZE_MAX ->
  sync_get_data min_bytes max_bytes timeout c = Returned r c' ->
  size (data r) <= max_bytes /\
  (error r = NoError -> min_bytes <= size (data r)).
Proof.
  intros Hmm Hmax Hret. split.
  - revert Hret. unfold sync_get_data.
    destruct (wait_for (ready min_bytes) timeout c) as [woke c1].
    destruct woke; simpl.
    2:{ intro H. inversion H; subst. simpl. unfold size. simpl. lia. }
    destruct (stopped_ c1 && empty (buffer_ c1)).
    { intro H. inversion H; subst. simpl. unfold size. simpl. lia. }
    pose proof (eq_refl (actual_bytes min_bytes max_bytes c1)) as Hdef.
    unfold actual_bytes at 2, bytes_to_take in Hdef.
    set (a := actual_bytes min_bytes max_bytes c1) in *.
    destruct (vector_max_size <? a); [discriminate|].
    destruct (Z.leb_spec 0 (to_ptrdiff a)) as [Hnn|]; simpl; [|discriminate].
    rewrite (to_ptrdiff_nonneg a) by lia.
    destruct (Z.leb_spec (Z.of_N a) (Z.of_N (size (buffer_ c1)))) as [Hle|];
      [|discriminate].
    intro H. inversion H; subst r c'. simpl. rewrite size_firstn. lia.
  - intro He. apply (sync_get_data_NoError_min min_bytes max_bytes timeout c c' r);
      [lia | assumption | assumption | assumption].
Qed.

Lemma sync_get_data_within_bounds_witness :
  size (data (mkResult [b1; b2] NoError 0 3)) <= 2 /\
  (error (mkResult [b1; b2] NoError 0 3) = NoError ->
   1 <= size (data (mkResult [b1; b2] NoError 0 3))).
Proof.
  apply (sync_get_data_within_bounds 1 2 [] five
           (mkController [b3; b4; b5] 10 false) (mkResult [b1; b2] NoError 0 3)).
  - vm_compute. discriminate.
  - vm_compute. discriminate.
  - vm_compute. reflexivity.
Defined.

(** X4.  With [min_bytes = 0] the wait predicate holds at once: the take
    does not wait, whatever the deadline, and cannot time out.  It returns
    the first [min (length buffer) max_bytes] bytes, with
    [ControllerStopped] only when the controller is stopped and empty. *)
Theorem sync_get_data_min_zero (max_bytes : N) (timeout : schedule)
  (c : controller) :
  size (buffer_ c) <= PTRDIFF_MAX ->
  let n := N.to_nat (N.min (size (buffer_ c)) max_bytes) in
  sync_get_data 0 max_bytes timeout c =
    Returned (mkResult (firstn n (buffer_ c))
                       (if stopped_ c && empty (buffer_ c)
                        then ControllerStopped else NoError)
                       0 (size (skipn n (buffer_ c))))
             (set_buffer (skipn n (buffer_ c)) c).
Proof.
  intros Hsz n.
  assert (Hr : ready 0 c = true).
  { unfold ready. apply orb_true_iff. right. apply N.leb_le. lia. }
  destruct (stopped_ c && empty (buffer_ c)) eqn:E.
  - apply andb_true_iff in E. destruct E as [Hs He].
    apply empty_true_iff in He.
    rewrite sync_get_data_stopped_empty by assumption.
    subst n. rewrite He. rewrite firstn_nil, skipn_nil.
    destruct c; simpl in *; subst. reflexivity.
  - assert (Ha : actual_bytes 0 max_bytes c = N.min (size (buffer_ c)) max_bytes)
      by (unfold actual_bytes, bytes_to_take; lia).
    rewrite sync_get_data_extracts; try assumption.
    + rewrite Ha. reflexivity.
    + rewrite Ha. lia.
Qed.

Lemma sync_get_data_min_zero_witness :
  sync_get_data 0 2 two_wakeups five =
    Returned (mkResult [b1; b2] NoError 0 3) (mkController [b3; b4; b5] 10 false).
Proof.
  apply (sync_get_data_min_zero 2 two_wakeups five).
  vm_compute. discriminate.
Defined.



(** ** Producer, consumer and stop working together *)

(** X6.  A consumer blocked for lack of data is served by the producer's
    next append: if the running controller holds fewer than [min_bytes]
    bytes and a producer appends data that fits and brings the buffer to
    [min_bytes] or more during the first wait, the take returns the first
    [min (length buffer', max_bytes)] bytes of the extended buffer with
    [NoError]; the rest of the schedule plays no part. *)
Theorem producer_wakes_consumer (min_bytes max_bytes : N) (d : ByteSpan)
  (rest : schedule) (c : controller) :
  stopped_ c = false ->
  max_buffer_size_ c <= PTRDIFF_MAX ->
  size (buffer_ c) < min_bytes ->
  min_bytes <= size (buffer_ c) + size d ->
  size (buffer_ c) + size d <= max_buffer_size_ c ->
  min_bytes <= max_bytes ->
  let n := N.to_nat (N.min (size (buffer_ c) + size d) max_bytes) in
  sync_get_data min_bytes max_bytes ([EnvAdd d] :: rest) c =
    Returned (mkResult (firstn n (buffer_ c ++ d)) NoError 0
                       (size (skipn n (buffer_ c ++ d))))
             (set_buffer (skipn n (buffer_ c ++ d)) c).
Proof.
  intros Hs Hcap Hlt Hge Hfit Hmm n.
  unfold PTRDIFF_MAX in Hcap.
  set (c1 := set_buffer (buffer_ c ++ d) c).
  assert (Hstep : sync_get_data min_bytes max_bytes ([EnvAdd d] :: rest) c =
                  sync_get_data min_bytes max_bytes rest c1).
  { unfold sync_get_data. simpl wait_for.
    replace (ready min_bytes c) with false.
    2:{ unfold ready. rewrite Hs. simpl. symmetry. apply N.leb_gt. exact Hlt. }
    unfold async_add_data. rewrite Hs.
    rewrite async_add_data_locked_fits by (unfold SIZE_MAX; lia).
    reflexivity. }
  rewrite Hstep.
  assert (Hsz : size (buffer_ c1) = size (buffer_ c) + size d)
    by (unfold c1; simpl; apply size_app).
  assert (Ha : actual_bytes min_bytes max_bytes c1 =
               N.min (size (buffer_ c) + size d) max_bytes)
    by (unfold actual_bytes, bytes_to_take; rewrite Hsz; lia).
  rewrite sync_get_data_extracts.
  - rewrite Ha. reflexivity.
  - unfold ready. apply orb_true_iff. right. apply N.leb_le. lia.
  - unfold c1. simpl. rewrite Hs. reflexivity.
  - unfold PTRDIFF_MAX. lia.
  - rewrite Ha. lia.
Qed.

Lemma producer_wakes_consumer_witness :
  sync_get_data 4 4 two_wakeups (mkController [b1; b2; b3] 10 false) =
    Returned (mkResult [b1; b2; b3; b4] NoError 0 1) (mkController [b5] 10 false).
Proof.
  apply (producer_wakes_consumer 4 4 [b4; b5] [[]]
           (mkController [b1; b2; b3] 10 false));
    try reflexivity; vm_compute; discriminate.
Defined.

(** X7.  [stop] releases a blocked consumer: a take waiting on a running,
    empty controller for at least one byte returns [ControllerStopped] with
    no data as soon as another thread calls [stop], without waiting for the
    deadline. *)
Theorem stop_wakes_consumer (min_bytes max_bytes : N) (rest : schedule)
  (c : controller) :
  stopped_ c = false -> buffer_ c = [] -> 1 <= min_bytes ->
  sync_get_data min_bytes max_bytes ([EnvStop] :: rest) c =
    Returned (mkResult [] ControllerStopped 0 0) (stop c).
Proof.
  intros Hs Hb Hmin. unfold sync_get_data. simpl wait_for.
  replace (ready min_bytes c) with false.
  2:{ unfold ready. rewrite Hs, Hb. simpl. symmetry. apply N.leb_gt.
      unfold size. simpl. lia. }
  change (run_actions [EnvStop] c) with (stop c).
  rewrite wait_for_ready by reflexivity.
  simpl. rewrite Hb. reflexivity.
Qed.

Lemma stop_wakes_consumer_witness :
  sync_get_data 10 10 [[EnvStop]; []; []] (mkController [] 16 false) =
    Returned (mkResult [] ControllerStopped 0 0) (mkController [] 16 true).
Proof.
  apply (stop_wakes_consumer 10 10 [[]; []] (mkController [] 16 false)).
  - reflexivity.
  - reflexivity.
  - vm_compute. discriminate.
Defined.

Lemma firstn_plus (a b : nat) (l : list Byte) :
  firstn (a + b) l = firstn a l ++ firstn b (skipn a l).
Proof.
  revert l. induction a as [|a IH]; intro l; simpl.
  - reflexivity.
  - destruct l as [|x l]; simpl.
    + rewrite firstn_nil. reflexivity.
    + rewrite IH. reflexivity.
Qed.

(** X8.  Two takes in a row deliver what one larger take delivers: on a
    running controller holding at least [n1 + n2] bytes, a take of exactly
    [n1] bytes followed by a take of exactly [n2] bytes returns the first
    [n1] bytes and then the next [n2], and leaves the controller as a single
    take of exactly [n1 + n2] bytes leaves it. *)
Theorem takes_compose (n1 n2 : N) (t1 t2 t : schedule) (c : controller) :
  stopped_ c = false ->
  size (buffer_ c) <= PTRDIFF_MAX ->
  n1 + n2 <= size (buffer_ c) ->
  exists r1 c1 r2 c2 r,
    sync_get_data n1 n1 t1 c = Returned r1 c1 /\
    sync_get_data n2 n2 t2 c1 = Returned r2 c2 /\
    sync_get_data (n1 + n2) (n1 + n2) t c = Returned r c2 /\
    data r1 = firstn (N.to_nat n1) (buffer_ c) /\
    data r1 ++ data r2 = data r /\
    error r1 = NoError /\ error r2 = NoError /\ error r = NoError.
Proof.
  intros Hs Hsz Hfit.
  assert (Hexact : forall n c0, stopped_ c0 = false ->
            size (buffer_ c0) <= PTRDIFF_MAX -> n <= size (buffer_ c0) ->
            forall t0, sync_get_data n n t0 c0 =
              Returned (mkResult (firstn (N.to_nat n) (buffer_ c0)) NoError 0
                          (size (skipn (N.to_nat n) (buffer_ c0))))
                       (set_buffer (skipn (N.to_nat n) (buffer_ c0)) c0)).
  { intros n c0 Hs0 Hsz0 Hn t0.
    assert (Ha : actual_bytes n n c0 = n)
      by (unfold actual_bytes, bytes_to_take; lia).
    rewrite sync_get_data_extracts.
    - rewrite Ha. reflexivity.
    - unfold ready. apply orb_true_iff. right. apply N.leb_le. exact Hn.
    - rewrite Hs0. reflexivity.
    - exact Hsz0.
    - rewrite Ha. exact Hn. }
  set (c1 := set_buffer (skipn (N.to_nat n1) (buffer_ c)) c).
  assert (Hsz1 : size (buffer_ c1) = size (buffer_ c) - n1).
  { unfold c1. simpl. rewrite size_skipn. lia. }
  eexists _, c1, _, _, _.
  split; [apply Hexact; [assumption | assumption | lia]|].
  split; [apply Hexact; [exact Hs | lia | lia]|].
  split.
  - rewrite Hexact by (assumption || lia).
    unfold c1, set_buffer. simpl.
    rewrite skipn_skipn.
    replace (N.to_nat n2 + N.to_nat n1)%nat with (N.to_nat (n1 + n2)) by lia.
    reflexivity.
  - simpl. split; [reflexivity|]. split; [|repeat split].
    replace (N.to_nat (n1 + n2)) with (N.to_nat n1 + N.to_nat n2)%nat by lia.
    rewrite firstn_plus. reflexivity.
Qed.

Lemma takes_compose_witness :
  exists r1 c1 r2 c2 r,
    sync_get_data 2 2 [] five = Returned r1 c1 /\
    sync_get_data 1 1 two_wakeups c1 = Returned r2 c2 /\
    sync_get_data (2 + 1) (2 + 1) [[]] five = Returned r c2 /\
    data r1 = firstn (N.to_nat 2) (buffer_ five) /\
    data r1 ++ data r2 = data r /\
    error r1 = NoError /\ error r2 = NoError /\ error r = NoError.
Proof.
  apply (takes_compose 2 1 [] two_wakeups [[]] five).
  - reflexivity.
  - vm_compute. discriminate.
  - vm_compute. discriminate.
Defined.

(** ** Deadlines and restarts *)

Lemma wait_for_extend (pred : controller -> bool) (t t' : schedule)
  (c : controller) :
  fst (wait_for pred t c) = true ->
  wait_for pred (t ++ t') c = wait_for pred t c.
Proof.
  revert c. induction t as [|acts rest IH]; intros c; simpl.
  - intro H. rewrite (wait_for_ready pred t' c H), H. reflexivity.
  - destruct (pred c); [reflexivity | apply IH].
Qed.

(** X9.  A later deadline changes nothing for a take that did not time
    out: whatever it did with the activity of the other threads up to its
    deadline (return data, report [ControllerStopped], or run past the end
    of the buffer) it does with any continuation of that activity. *)
Theorem later_deadline_same_outcome (min_bytes max_bytes : N)
  (t t' : schedule) (c : controller) :
  (forall r c', sync_get_data min_bytes max_bytes t c = Returned r c' ->
                error r <> Timeout) ->
  sync_get_data min_bytes max_bytes (t ++ t') c =
    sync_get_data min_bytes max_bytes t c.
Proof.
  intro H. unfold sync_get_data in *.
  pose proof (wait_for_extend (ready min_bytes) t t' c) as Hext.
  destruct (wait_for (ready min_bytes) t c) as [woke c1]. simpl in *.
  destruct woke.
  - rewrite (Hext eq_refl). reflexivity.
  - exfalso. apply (H _ _ eq_refl). reflexivity.
Qed.

Lemma later_deadline_same_outcome_witness :
  sync_get_data 4 4 (two_wakeups ++ [[EnvStop]; []])
                (mkController [b1; b2; b3] 10 false) =
    sync_get_data 4 4 two_wakeups (mkController [b1; b2; b3] 10 false).
Proof.
  apply (later_deadline_same_outcome 4 4 two_wakeups [[EnvStop]; []]
           (mkController [b1; b2; b3] 10 false)).
  intros r c'. vm_compute. intro H. inversion H. discriminate.
Defined.

(** X10.  A restart loses nothing: [start] after [stop] gives back a
    running controller with the buffer and the capacity it had, so that an
    append that was refused while stopped is accepted again; and [stop] on
    a stopped controller changes nothing. *)
Theorem restart_keeps_buffer (d : ByteSpan) (c : controller) :
  stopped_ c = false ->
  start (stop c) = c /\
  stop (stop c) = stop c /\
  async_add_data d (stop c) = (ControllerStopped, stop c) /\
  async_add_data d (start (stop c)) = async_add_data d c.
Proof.
  intro Hs. assert (E : start (stop c) = c).
  { destruct c as [b m s]. simpl in Hs. subst s. reflexivity. }
  split; [exact E|]. split; [reflexivity|].
  split; [reflexivity|]. rewrite E. reflexivity.
Qed.

Lemma restart_keeps_buffer_witness :
  start (stop five) = five /\
  stop (stop five) = stop five /\
  async_add_data [b1] (stop five) = (ControllerStopped, stop five) /\
  async_add_data [b1] (start (stop five)) = async_add_data [b1] five.
Proof.
  apply (restart_keeps_buffer [b1] five). reflexivity.
Defined.

(** * The second version of [sync_get_data] *)

Lemma v2_extract_exact (max_bytes : N) (c1 : controller) :
  size (buffer_ c1) <= PTRDIFF_MAX ->
  let n := N.to_nat (N.min (size (buffer_ c1)) max_bytes) in
  V2.extract max_bytes c1 =
    V2.Returned
      (V2.mkResult (firstn n (buffer_ c1))
         (if stopped_ c1 then V2.ControllerStopped else V2.NoError)
         (N.min (size (buffer_ c1)) max_bytes)
         (size (skipn n (buffer_ c1))))
      (set_buffer (skipn n (buffer_ c1)) c1).
Proof.
  intros Hsz n. unfold V2.extract.
  rewrite to_ptrdiff_small by lia.
  replace (Z.to_nat (Z.of_N (N.min (size (buffer_ c1)) max_bytes)))
    with n by (subst n; lia).
  destruct (Z.leb_spec 0 (Z.of_N (N.min (size (buffer_ c1)) max_bytes))); [|lia].
  destruct (Z.leb_spec (Z.of_N (N.min (size (buffer_ c1)) max_bytes))
                       (Z.of_N (size (buffer_ c1)))); [|lia].
  reflexivity.
Qed.

(** X11.  The second version validates its arguments: a take with
    [min_bytes > max_bytes] returns [InvalidArgs] with no data, reports the
    current buffer length, does not wait whatever the deadline, and leaves
    the controller as it found it.  No other call returns [InvalidArgs]. *)
Theorem v2_invalid_args (min_bytes max_bytes : N) (timeout : schedule)
  (c : controller) :
  (max_bytes < min_bytes ->
   V2.sync_get_data min_bytes max_bytes timeout c =
     V2.Returned (V2.mkResult [] V2.InvalidArgs 0 (current_buffer_size c)) c) /\
  (forall r c',
      V2.sync_get_data min_bytes max_bytes timeout c = V2.Returned r c' ->
      V2.error r = V2.InvalidArgs -> max_bytes < min_bytes).
Proof.
  unfold V2.sync_get_data, V2.extract.
  destruct (N.ltb_spec max_bytes min_bytes) as [Hlt|Hge].
  - split; [reflexivity | intros; exact Hlt].
  - split; [intro; lia|]. intros r c'.
    destruct (wait_for (ready min_bytes) timeout c) as [woke c1].
    destruct woke; simpl.
    + destruct (stopped_ c1) eqn:Hs.
      * destruct (empty (buffer_ c1)).
        -- intros H He. inversion H; subst. discriminate He.
        -- match goal with |- context [if ?b then _ else _] => destruct b end;
             [|discriminate].
           intros H He. inversion H; subst r c'. discriminate He.
      * match goal with |- context [if ?b then _ else _] => destruct b end;
          [|discriminate].
        intros H He. inversion H; subst r c'. discriminate He.
    + intros H He. inversion H; subst. discriminate He.
Qed.

Lemma v2_invalid_args_witness :
  V2.sync_get_data 10 3 two_wakeups ten =
    V2.Returned (V2.mkResult [] V2.InvalidArgs 0 10) ten.
Proof.
  apply (proj1 (v2_invalid_args 10 3 two_wakeups ten)). reflexivity.
Defined.

(** X12.  The second version never runs past the end of the buffer: on a
    controller within its capacity every take returns, with at most
    [max_bytes] bytes, the controller it leaves is within its capacity, and
    the third field of the result is the number of bytes returned. *)
Theorem v2_always_returns (cap min_bytes max_bytes : N) (timeout : schedule)
  (c : controller) :
  capacity_inv cap c -> schedule_ok timeout = true ->
  exists r c',
    V2.sync_get_data min_bytes max_bytes timeout c = V2.Returned r c' /\
    capacity_inv cap c' /\
    size (V2.data r) <= max_bytes /\
    V2.dropped_bytes r = size (V2.data r) /\
    V2.buffer_size r = current_buffer_size c'.
Proof.
  intros Hinv Hok. unfold V2.sync_get_data.
  destruct (N.ltb_spec max_bytes min_bytes) as [Hlt|Hge].
  { eexists _, _. split; [reflexivity|]. simpl.
    repeat split; try apply Hinv; unfold size; simpl; lia. }
  pose proof (inv_wait_for cap (ready min_bytes) timeout c Hok Hinv) as Hw.
  destruct (wait_for (ready min_bytes) timeout c) as [woke c1]. simpl in Hw.
  assert (Hsz : size (buffer_ c1) <= PTRDIFF_MAX).
  { destruct Hw as [Hb [Hc Hv]]. unfold vector_max_size in Hv. lia. }
  assert (Hex : exists r c',
             V2.extract max_bytes c1 = V2.Returned r c' /\
             capacity_inv cap c' /\
             size (V2.data r) <= max_bytes /\
             V2.dropped_bytes r = size (V2.data r) /\
             V2.buffer_size r = current_buffer_size c').
  { rewrite (v2_extract_exact max_bytes c1 Hsz).
    eexists _, _. split; [reflexivity|]. simpl.
    split; [apply inv_shrink; exact Hw|].
    rewrite size_firstn. repeat split; lia. }
  destruct woke; simpl.
  - destruct (stopped_ c1); [|exact Hex].
    destruct (empty (buffer_ c1)) eqn:He; [|exact Hex].
    apply empty_true_iff in He.
    eexists _, _. split; [reflexivity|]. simpl.
    unfold current_buffer_size. rewrite He.
    repeat split; try apply Hw; unfold size; simpl; lia.
  - eexists _, _. split; [reflexivity|]. simpl.
    repeat split; try apply Hw; unfold size; simpl; lia.
Qed.

Lemma v2_always_returns_witness :
  exists r c',
    V2.sync_get_data 5 10 two_wakeups residual3 = V2.Returned r c' /\
    capacity_inv 10 c' /\
    size (V2.data r) <= 10 /\
    V2.dropped_bytes r = size (V2.data r) /\
    V2.buffer_size r = current_buffer_size c'.
Proof.
  apply (v2_always_returns 10 5 10 two_wakeups residual3).
  - vm_compute. repeat split; discriminate.
  - reflexivity.
Defined.

(** X13.  Status of the second version, for [min_bytes <= max_bytes]: a
    take reports [ControllerStopped] exactly when it leaves a stopped
    controller, and one that reports [NoError] returns at least [min_bytes]
    bytes. *)
Theorem v2_status (min_bytes max_bytes : N) (timeout : schedule)
  (c c' : controller) (r : V2.Result) :
  min_bytes <= max_bytes -> max_bytes <= SIZE_MAX ->
  V2.sync_get_data min_bytes max_bytes timeout c = V2.Returned r c' ->
  (V2.error r = V2.ControllerStopped <-> stopped_ c' = true) /\
  (V2.error r = V2.NoError -> min_bytes <= size (V2.data r)).
Proof.
  intros Hmm Hmax. unfold V2.sync_get_data.
  destruct (N.ltb_spec max_bytes min_bytes) as [Hlt|_]; [lia|].
  pose proof (wait_for_sound (ready min_bytes) timeout c) as Hsound.
  destruct (wait_for (ready min_bytes) timeout c) as [woke c1].
  specialize (Hsound woke c1 eq_refl). unfold ready in Hsound.
  assert (Hex : V2.extract max_bytes c1 = V2.Returned r c' ->
                (stopped_ c1 = false -> min_bytes <= size (buffer_ c1)) ->
                (V2.error r = V2.ControllerStopped <-> stopped_ c' = true) /\
                (V2.error r = V2.NoError -> min_bytes <= size (V2.data r))).
  { unfold V2.extract.
    set (n := N.min (size (buffer_ c1)) max_bytes).
    destruct (Z.leb_spec 0 (to_ptrdiff n)) as [Hnn|]; simpl; [|discriminate].
    rewrite (to_ptrdiff_nonneg n) by (subst n; lia).
    destruct (Z.leb_spec (Z.of_N n) (Z.of_N (size (buffer_ c1)))) as [Hle|];
      [|discriminate].
    intros H Hrun. inversion H; subst r c'. simpl.
    destruct (stopped_ c1).
    - split; [tauto | discriminate].
    - split; [split; discriminate|]. intros _.
      specialize (Hrun eq_refl). rewrite size_firstn. subst n. lia. }
  destruct woke; simpl.
  - destruct (stopped_ c1) eqn:Hs.
    + destruct (empty (buffer_ c1)).
      * intro H. inversion H; subst r c'. simpl.
        split; [tauto | discriminate].
      * intro H. apply Hex; [exact H | discriminate].
    + simpl in Hsound. apply N.leb_le in Hsound.
      intro H. apply Hex; [exact H | intros _; exact Hsound].
  - apply orb_false_iff in Hsound. destruct Hsound as [Hs _].
    intro H. inversion H; subst r c'. simpl. rewrite Hs.
    split; [split; discriminate | discriminate].
Qed.

Lemma v2_status_witness :
  (V2.error (V2.mkResult [b1; b2; b3] V2.ControllerStopped 3 0) = V2.ControllerStopped
   <-> stopped_ (mkController [] 10 true) = true) /\
  (V2.error (V2.mkResult [b1; b2; b3] V2.ControllerStopped 3 0) = V2.NoError ->
   5 <= size (V2.data (V2.mkResult [b1; b2; b3] V2.ControllerStopped 3 0))).
Proof.
  apply (v2_status 5 10 two_wakeups residual3).
  - vm_compute. discriminate.
  - vm_compute. discriminate.
  - vm_compute. reflexivity.
Defined.

(** X14.  Draining in the second version.  On a stopped controller that
    still holds bytes, a take with [min_bytes <= max_bytes] hands over the
    first [min (length buffer) max_bytes] bytes with [ControllerStopped],
    also when fewer than [min_bytes] are left; once the buffer is empty any
    further take returns [ControllerStopped] with no data. *)
Theorem v2_drain_then_terminate (min_bytes max_bytes : N) (timeout : schedule)
  (c : controller) :
  stopped_ c = true -> buffer_ c <> [] ->
  size (buffer_ c) <= PTRDIFF_MAX ->
  min_bytes <= max_bytes ->
  let n := N.to_nat (N.min (size (buffer_ c)) max_bytes) in
  V2.sync_get_data min_bytes max_bytes timeout c =
    V2.Returned
      (V2.mkResult (firstn n (buffer_ c)) V2.ControllerStopped
                   (N.min (size (buffer_ c)) max_bytes)
                   (size (skipn n (buffer_ c))))
      (set_buffer (skipn n (buffer_ c)) c) /\
  V2.sync_get_data min_bytes max_bytes timeout (set_buffer [] c) =
    V2.Returned (V2.mkResult [] V2.ControllerStopped 0 0) (set_buffer [] c).
Proof.
  intros Hs Hne Hsz Hmm n. unfold V2.sync_get_data.
  destruct (N.ltb_spec max_bytes min_bytes) as [Hlt|_]; [lia|].
  split.
  - rewrite wait_for_ready by (unfold ready; rewrite Hs; reflexivity).
    simpl. rewrite Hs.
    destruct (empty (buffer_ c)) eqn:He.
    + apply empty_true_iff in He. contradiction.
    + rewrite (v2_extract_exact max_bytes c Hsz). rewrite Hs. reflexivity.
  - rewrite wait_for_ready
      by (unfold ready; simpl; rewrite Hs; reflexivity).
    simpl. rewrite Hs. reflexivity.
Qed.

Lemma v2_drain_then_terminate_witness :
  V2.sync_get_data 5 10 [] residual3 =
    V2.Returned (V2.mkResult [b1; b2; b3] V2.ControllerStopped 3 0)
                (mkController [] 10 true) /\
  V2.sync_get_data 5 10 [] (mkController [] 10 true) =
    V2.Returned (V2.mkResult [] V2.ControllerStopped 0 0) (mkController [] 10 true).
Proof.
  apply (v2_drain_then_terminate 5 10 [] residual3).
  - reflexivity.
  - vm_compute. discriminate.
  - vm_compute. discriminate.
  - vm_compute. discriminate.
Defined.

(** X15.  The two versions agree wherever the first one returns: for
    [min_bytes <= max_bytes], if the first version returns, the second
    returns the same bytes, the same [buffer_size] and leaves the same
    controller.  Its code is [ControllerStopped] when that controller is
    stopped, and the first version's code otherwise. *)
Theorem versions_agree (min_bytes max_bytes : N) (timeout : schedule)
  (c c' : controller) (r : Result) :
  min_bytes <= max_bytes -> max_bytes <= SIZE_MAX ->
  sync_get_data min_bytes max_bytes timeout c = Returned r c' ->
  exists r2,
    V2.sync_get_data min_bytes max_bytes timeout c = V2.Returned r2 c' /\
    V2.data r2 = data r /\
    V2.buffer_size r2 = buffer_size r /\
    V2.error r2 =
      (if stopped_ c' then V2.ControllerStopped else v2_code (error r)).
Proof.
  intros Hmm Hmax. unfold sync_get_data, V2.sync_get_data.
  destruct (N.ltb_spec max_bytes min_bytes) as [Hlt|_]; [lia|].
  pose proof (wait_for_sound (ready min_bytes) timeout c) as Hsound.
  destruct (wait_for (ready min_bytes) timeout c) as [woke c1].
  specialize (Hsound woke c1 eq_refl). unfold ready in Hsound.
  destruct woke; simpl.
  - assert (Hex :
      (if ((0 <=? to_ptrdiff (actual_bytes min_bytes max_bytes c1))%Z &&
           (to_ptrdiff (actual_bytes min_bytes max_bytes c1)
              <=? Z.of_N (size (buffer_ c1)))%Z)%bool
       then Returned
              (mkResult
                 (firstn (Z.to_nat (to_ptrdiff (actual_bytes min_bytes max_bytes c1)))
                    (buffer_ c1)) NoError 0
                 (size (buffer_ (set_buffer
                    (skipn (Z.to_nat (to_ptrdiff (actual_bytes min_bytes max_bytes c1)))
                       (buffer_ c1)) c1))))
              (set_buffer
                 (skipn (Z.to_nat (to_ptrdiff (actual_bytes min_bytes max_bytes c1)))
                    (buffer_ c1)) c1)
       else Undefined) = Returned r c' ->
      exists r2, V2.extract max_bytes c1 = V2.Returned r2 c' /\
        V2.data r2 = data r /\ V2.buffer_size r2 = buffer_size r /\
        V2.error r2 =
          (if stopped_ c' then V2.ControllerStopped else v2_code (error r))).
    { pose proof (eq_refl (actual_bytes min_bytes max_bytes c1)) as Hdef.
      unfold actual_bytes at 2, bytes_to_take in Hdef.
      set (a := actual_bytes min_bytes max_bytes c1) in *.
      destruct (Z.leb_spec 0 (to_ptrdiff a)) as [Hnn|]; simpl; [|discriminate].
      assert (Ha : a <= SIZE_MAX) by lia.
      rewrite (to_ptrdiff_nonneg a Ha Hnn).
      destruct (Z.leb_spec (Z.of_N a) (Z.of_N (size (buffer_ c1)))) as [Hle|];
        [|discriminate].
      intro H. inversion H; subst r c'. clear H.
      assert (Hn : N.min (size (buffer_ c1)) max_bytes = a) by lia.
      unfold V2.extract. rewrite Hn.
      rewrite (to_ptrdiff_nonneg a Ha) by (rewrite (to_ptrdiff_nonneg a Ha Hnn); lia).
      destruct (Z.leb_spec 0 (Z.of_N a)); [|lia].
      destruct (Z.leb_spec (Z.of_N a) (Z.of_N (size (buffer_ c1)))); [|lia].
      simpl. eexists. split; [reflexivity|]. simpl.
      destruct (stopped_ c1); repeat split; reflexivity. }
    destruct (stopped_ c1) eqn:Hs; simpl.
    + destruct (empty (buffer_ c1)).
      * intro H. inversion H; subst r c'. eexists. split; [reflexivity|].
        simpl. rewrite Hs. repeat split; reflexivity.
      * destruct (vector_max_size <? actual_bytes min_bytes max_bytes c1);
          [discriminate | exact Hex].
    + destruct (vector_max_size <? actual_bytes min_bytes max_bytes c1);
        [discriminate | exact Hex].
  - apply orb_false_iff in Hsound. destruct Hsound as [Hs _].
    intro H. inversion H; subst r c'. eexists. split; [reflexivity|].
    simpl. rewrite Hs. repeat split; reflexivity.
Qed.

Lemma versions_agree_witness :
  exists r2,
    V2.sync_get_data 4 4 two_wakeups (mkController [b1; b2; b3] 10 false) =
      V2.Returned r2 (mkController [b5] 10 false) /\
    V2.data r2 = data (mkResult [b1; b2; b3; b4] NoError 0 1) /\
    V2.buffer_size r2 = buffer_size (mkResult [b1; b2; b3; b4] NoError 0 1) /\
    V2.error r2 =
      (if stopped_ (mkController [b5] 10 false) then V2.ControllerStopped
       else v2_code (error (mkResult [b1; b2; b3; b4] NoError 0 1))).
Proof.
  apply (versions_agree 4 4 two_wakeups (mkController [b1; b2; b3] 10 false)).
  - vm_compute. discriminate.
  - vm_compute. discriminate.
  - vm_compute. reflexivity.
Defined.

(** * The elevator controller *)

Local Open Scope Z_scope.

(** The assertions of [runTests] in the elevator's [main.cpp]. *)
Lemma runTests_assertions_hold :
  (let e1 := snd (elevator.addExternalRequest 3 elevator.initial) in
   elevator.getCurrentFloor elevator.initial = elevator.kMinFloor /\
   fst (elevator.addExternalRequest 3 elevator.initial) = elevator.Ok /\
   elevator.getCurrentDirection e1 = elevator.UP /\
   elevator.getCurrentFloor (elevator.moves 1 e1) = 2 /\
   elevator.getCurrentFloor (elevator.moves 2 e1) = 3 /\
   elevator.getCurrentDirection (elevator.moves 2 e1) = elevator.IDLE) /\
  (let e1 := snd (elevator.addExternalRequest 5 elevator.initial) in
   let e2 := elevator.moves 4 (snd (elevator.addInternalRequest 3 e1)) in
   let e3 := snd (elevator.addInternalRequest 2 e2) in
   elevator.getCurrentFloor e2 = 5 /\
   elevator.getCurrentDirection e3 = elevator.DOWN /\
   elevator.getCurrentFloor (elevator.moves 2 e3) = 3 /\
   elevator.getCurrentDirection (elevator.moves 2 e3) = elevator.DOWN /\
   elevator.getCurrentFloor (elevator.moves 3 e3) = 2 /\
   elevator.getCurrentDirection (elevator.moves 3 e3) = elevator.IDLE) /\
  (let e1 := elevator.move (snd (elevator.addExternalRequest 1 elevator.initial)) in
   let e2 := snd (elevator.addExternalRequest 9 e1) in
   let e3 := elevator.moves 8 e2 in
   let e4 := snd (elevator.addInternalRequest 1 e3) in
   elevator.getCurrentFloor e1 = 1 /\
   elevator.getCurrentDirection e1 = elevator.IDLE /\
   elevator.getCurrentDirection e2 = elevator.UP /\
   elevator.getCurrentFloor e3 = 9 /\
   elevator.getCurrentDirection e3 = elevator.IDLE /\
   elevator.getCurrentDirection e4 = elevator.DOWN /\
   elevator.getCurrentFloor (elevator.moves 8 e4) = 1 /\
   elevator.getCurrentDirection (elevator.moves 8 e4) = elevator.IDLE).
Proof. repeat split; vm_compute; reflexivity. Qed.

(** ** Sets of floors *)

Lemma IntSet_nonempty (s : IntSet.t) :
  IntSet.is_empty s = false <-> exists x, IntSet.In x s.
Proof.
  split.
  - intro H. destruct (IntSet.choose s) as [x|] eqn:C.
    + exists x. apply IntSet.choose_spec1. exact C.
    + apply IntSet.choose_spec2 in C. apply IntSet.is_empty_spec in C.
      rewrite C in H. discriminate.
  - intros [x Hx]. destruct (IntSet.is_empty s) eqn:E; [|reflexivity].
    apply IntSet.is_empty_spec in E. exfalso. exact (E x Hx).
Qed.

Lemma IntSet_exists_above (cur : Z) (s : IntSet.t) :
  IntSet.exists_ (fun floor => floor >? cur) s = true <->
  exists f, IntSet.In f s /\ cur < f.
Proof.
  rewrite IntSet.exists_spec by (intros x y Hxy; rewrite Hxy; reflexivity).
  unfold IntSet.Exists. split; intros [f [Hin Hf]]; exists f; split;
    try exact Hin; apply Z.gtb_lt; exact Hf.
Qed.

Lemma IntSet_exists_below (cur : Z) (s : IntSet.t) :
  IntSet.exists_ (fun floor => floor <? cur) s = true <->
  exists f, IntSet.In f s /\ f < cur.
Proof.
  rewrite IntSet.exists_spec by (intros x y Hxy; rewrite Hxy; reflexivity).
  unfold IntSet.Exists. split; intros [f [Hin Hf]]; exists f; split;
    try exact Hin; apply Z.ltb_lt; exact Hf.
Qed.

(** ** The three queries *)

Lemma hasRequests_spec (e : elevator.ElevatorController) :
  elevator.hasRequests e = true <-> exists f, elevator.pending e f.
Proof.
  unfold elevator.hasRequests, elevator.pending.
  rewrite orb_true_iff, !negb_true_iff, !IntSet_nonempty.
  split.
  - intros [[f H]|[f H]]; exists f; [left | right]; exact H.
  - intros [f [H|H]]; [left | right]; exists f; exact H.
Qed.

Lemma hasRequestsAbove_spec (e : elevator.ElevatorController) :
  elevator.hasRequestsAbove e = true <->
  exists f, elevator.pending e f /\ elevator.current_floor_ e < f.
Proof.
  unfold elevator.hasRequestsAbove, elevator.pending.
  rewrite orb_true_iff, !IntSet_exists_above.
  split.
  - intros [[f [H L]]|[f [H L]]]; exists f; (split; [|exact L]);
      [left | right]; exact H.
  - intros [f [[H|H] L]]; [left | right]; exists f; split; assumption.
Qed.

Lemma hasRequestsBelow_spec (e : elevator.ElevatorController) :
  elevator.hasRequestsBelow e = true <->
  exists f, elevator.pending e f /\ f < elevator.current_floor_ e.
Proof.
  unfold elevator.hasRequestsBelow, elevator.pending.
  rewrite orb_true_iff, !IntSet_exists_below.
  split.
  - intros [[f [H L]]|[f [H L]]]; exists f; (split; [|exact L]);
      [left | right]; exact H.
  - intros [f [[H|H] L]]; [left | right]; exists f; split; assumption.
Qed.

(** ** [updateDirection] *)

Lemma pending_erase_current (e : elevator.ElevatorController) (f : Z) :
  elevator.pending (elevator.erase_current e) f <->
  elevator.pending e f /\ f <> elevator.current_floor_ e.
Proof.
  unfold elevator.pending, elevator.erase_current. simpl.
  rewrite !IntSet.remove_spec. tauto.
Qed.

Lemma updateDirection_fields (e : elevator.ElevatorController) :
  elevator.current_floor_ (elevator.updateDirection e) = elevator.current_floor_ e /\
  elevator.internal_requests_ (elevator.updateDirection e) =
    IntSet.remove (elevator.current_floor_ e) (elevator.internal_requests_ e) /\
  elevator.external_requests_ (elevator.updateDirection e) =
    IntSet.remove (elevator.current_floor_ e) (elevator.external_requests_ e).
Proof.
  unfold elevator.updateDirection.
  destruct (negb (elevator.hasRequests (elevator.erase_current e))).
  - repeat split.
  - destruct (elevator.direction_ (elevator.erase_current e)).
    + repeat split.
    + repeat split.
    + destruct (elevator.hasRequestsAbove (elevator.erase_current e));
        [repeat split|].
      destruct (elevator.hasRequestsBelow (elevator.erase_current e));
        repeat split.
Qed.

Lemma pending_updateDirection (e : elevator.ElevatorController) (f : Z) :
  elevator.pending (elevator.updateDirection e) f <->
  elevator.pending e f /\ f <> elevator.current_floor_ e.
Proof.
  destruct (updateDirection_fields e) as [_ [Hi He]].
  unfold elevator.pending. rewrite Hi, He, !IntSet.remove_spec. tauto.
Qed.

(** After [updateDirection] the direction points at a pending request, and
    is [IDLE] only when nothing is pending. *)
Lemma updateDirection_points (e : elevator.ElevatorController) :
  match elevator.direction_ (elevator.updateDirection e) with
  | elevator.UP =>
      exists f, elevator.pending (elevator.updateDirection e) f /\
                elevator.current_floor_ (elevator.updateDirection e) < f
  | elevator.DOWN =>
      exists f, elevator.pending (elevator.updateDirection e) f /\
                f < elevator.current_floor_ (elevator.updateDirection e)
  | elevator.IDLE => forall f, ~ elevator.pending (elevator.updateDirection e) f
  end.
Proof.
  unfold elevator.updateDirection.
  assert (Hcur : ~ elevator.pending (elevator.erase_current e)
                   (elevator.current_floor_ (elevator.erase_current e))).
  { rewrite pending_erase_current. simpl. tauto. }
  set (e1 := elevator.erase_current e) in *.
  pose proof (hasRequests_spec e1) as HR.
  pose proof (hasRequestsAbove_spec e1) as HA.
  pose proof (hasRequestsBelow_spec e1) as HB.
  assert (Hside : (exists f, elevator.pending e1 f) ->
                  elevator.hasRequestsAbove e1 = true \/
                  elevator.hasRequestsBelow e1 = true).
  { intros [f Hpf].
    destruct (Z.lt_trichotomy f (elevator.current_floor_ e1)) as [Hl|[Heq|Hg]].
    - right. apply HB. exists f. tauto.
    - subst f. contradiction.
    - left. apply HA. exists f. tauto. }
  destruct (elevator.hasRequests e1) eqn:ER; simpl negb; cbv iota.
  - assert (Hsome := Hside (proj1 HR eq_refl)).
    destruct (elevator.direction_ e1) eqn:D.
    + destruct (elevator.hasRequestsAbove e1) eqn:EA.
      * exact (proj1 HA eq_refl).
      * destruct Hsome as [H|H]; [discriminate|]. exact (proj1 HB H).
    + destruct (elevator.hasRequestsBelow e1) eqn:EB.
      * exact (proj1 HB eq_refl).
      * destruct Hsome as [H|H]; [|discriminate]. exact (proj1 HA H).
    + destruct (elevator.hasRequestsAbove e1) eqn:EA.
      * exact (proj1 HA eq_refl).
      * destruct (elevator.hasRequestsBelow e1) eqn:EB.
        -- exact (proj1 HB eq_refl).
        -- destruct Hsome as [H|H]; discriminate.
  - intros f Hpf.
    assert (Ht : false = true) by (apply HR; exists f; exact Hpf).
    discriminate Ht.
Qed.

(** [updateDirection] keeps a direction in which something is pending. *)
Lemma updateDirection_keeps_UP (e : elevator.ElevatorController) :
  elevator.direction_ e = elevator.UP ->
  (exists f, elevator.pending e f /\ elevator.current_floor_ e < f) ->
  elevator.direction_ (elevator.updateDirection e) = elevator.UP.
Proof.
  intros D [f [Hp Hf]]. unfold elevator.updateDirection.
  set (e1 := elevator.erase_current e).
  assert (Hp1 : elevator.pending e1 f)
    by (apply pending_erase_current; split; [exact Hp | lia]).
  assert (HR : elevator.hasRequests e1 = true)
    by (apply hasRequests_spec; exists f; exact Hp1).
  assert (HA : elevator.hasRequestsAbove e1 = true)
    by (apply hasRequestsAbove_spec; exists f; split; [exact Hp1 | exact Hf]).
  rewrite HR. simpl negb. cbv iota.
  change (elevator.direction_ e1) with (elevator.direction_ e).
  rewrite D, HA. reflexivity.
Qed.

Lemma updateDirection_keeps_DOWN (e : elevator.ElevatorController) :
  elevator.direction_ e = elevator.DOWN ->
  (exists f, elevator.pending e f /\ f < elevator.current_floor_ e) ->
  elevator.direction_ (elevator.updateDirection e) = elevator.DOWN.
Proof.
  intros D [f [Hp Hf]]. unfold elevator.updateDirection.
  set (e1 := elevator.erase_current e).
  assert (Hp1 : elevator.pending e1 f)
    by (apply pending_erase_current; split; [exact Hp | lia]).
  assert (HR : elevator.hasRequests e1 = true)
    by (apply hasRequests_spec; exists f; exact Hp1).
  assert (HB : elevator.hasRequestsBelow e1 = true)
    by (apply hasRequestsBelow_spec; exists f; split; [exact Hp1 | exact Hf]).
  rewrite HR. simpl negb. cbv iota.
  change (elevator.direction_ e1) with (elevator.direction_ e).
  rewrite D, HB. reflexivity.
Qed.

(** [updateDirection] establishes [well_formed] from the two range
    conditions alone. *)
Lemma updateDirection_well_formed (e : elevator.ElevatorController) :
  elevator.kMinFloor <= elevator.current_floor_ e <= elevator.kMaxFloor ->
  (forall f, elevator.pending e f ->
             elevator.kMinFloor <= f <= elevator.kMaxFloor) ->
  elevator.well_formed (elevator.updateDirection e).
Proof.
  intros Hc Hr. unfold elevator.well_formed.
  rewrite (proj1 (updateDirection_fields e)).
  split; [exact Hc|]. split; [|split].
  - intros f Hf. apply pending_updateDirection in Hf. apply Hr. tauto.
  - rewrite pending_updateDirection. tauto.
  - pose proof (updateDirection_points e) as H.
    rewrite (proj1 (updateDirection_fields e)) in H. exact H.
Qed.

(** ** [move] *)

Lemma move_IDLE (e : elevator.ElevatorController) :
  elevator.direction_ e = elevator.IDLE -> elevator.move e = e.
Proof. intro D. unfold elevator.move. rewrite D. reflexivity. Qed.

Lemma move_UP (e : elevator.ElevatorController) :
  elevator.direction_ e = elevator.UP ->
  elevator.current_floor_ e < elevator.kMaxFloor ->
  elevator.move e =
    elevator.updateDirection
      (elevator.erase_current
         (elevator.set_floor (elevator.current_floor_ e + 1)
            (elevator.erase_current e))).
Proof.
  intros D Hlt. unfold elevator.move. rewrite D. simpl.
  rewrite D. apply Z.ltb_lt in Hlt. rewrite Hlt. reflexivity.
Qed.

Lemma move_DOWN (e : elevator.ElevatorController) :
  elevator.direction_ e = elevator.DOWN ->
  elevator.kMinFloor < elevator.current_floor_ e ->
  elevator.move e =
    elevator.updateDirection
      (elevator.erase_current
         (elevator.set_floor (elevator.current_floor_ e - 1)
            (elevator.erase_current e))).
Proof.
  intros D Hlt. unfold elevator.move. rewrite D. simpl.
  rewrite D. apply Z.gtb_lt in Hlt. rewrite Hlt. reflexivity.
Qed.

(** The direction of a well-formed controller leaves room to move. *)
Lemma well_formed_room (e : elevator.ElevatorController) :
  elevator.well_formed e ->
  (elevator.direction_ e = elevator.UP ->
   elevator.current_floor_ e < elevator.kMaxFloor) /\
  (elevator.direction_ e = elevator.DOWN ->
   elevator.kMinFloor < elevator.current_floor_ e).
Proof.
  intros [Hc [Hr [Hn Hd]]]. split; intro D; rewrite D in Hd;
    destruct Hd as [f [Hp Hf]]; specialize (Hr f Hp); lia.
Qed.

(** What is pending after a step of a well-formed controller that is not
    idle, towards floor [g]. *)
Lemma pending_step (e : elevator.ElevatorController) (g f : Z) :
  elevator.pending
    (elevator.updateDirection
       (elevator.erase_current
          (elevator.set_floor g (elevator.erase_current e)))) f <->
  elevator.pending e f /\ f <> elevator.current_floor_ e /\ f <> g.
Proof.
  rewrite pending_updateDirection, pending_erase_current.
  change (elevator.pending (elevator.set_floor g (elevator.erase_current e)) f)
    with (elevator.pending (elevator.erase_current e) f).
  rewrite pending_erase_current. simpl. tauto.
Qed.

Lemma move_well_formed (e : elevator.ElevatorController) :
  elevator.well_formed e -> elevator.well_formed (elevator.move e).
Proof.
  intro W. destruct (well_formed_room e W) as [Hup Hdn].
  pose proof W as [Hc [Hr [Hn Hd]]].
  unfold elevator.kMinFloor, elevator.kMaxFloor in *.
  destruct (elevator.direction_ e) eqn:D.
  - rewrite (move_UP e D (Hup eq_refl)).
    apply updateDirection_well_formed.
    + simpl. specialize (Hup eq_refl).
      unfold elevator.kMinFloor, elevator.kMaxFloor. lia.
    + intros f Hf. apply pending_erase_current in Hf. destruct Hf as [Hf _].
      change (elevator.pending (elevator.erase_current e) f) in Hf.
      apply pending_erase_current in Hf. apply Hr. tauto.
  - rewrite (move_DOWN e D (Hdn eq_refl)).
    apply updateDirection_well_formed.
    + simpl. specialize (Hdn eq_refl).
      unfold elevator.kMinFloor, elevator.kMaxFloor. lia.
    + intros f Hf. apply pending_erase_current in Hf. destruct Hf as [Hf _].
      change (elevator.pending (elevator.erase_current e) f) in Hf.
      apply pending_erase_current in Hf. apply Hr. tauto.
  - rewrite (move_IDLE e D). exact W.
Qed.

(** ** Requests *)

Lemma validateFloor_Ok (floor : Z) :
  elevator.validateFloor floor = elevator.Ok <->
  elevator.kMinFloor <= floor <= elevator.kMaxFloor.
Proof.
  unfold elevator.validateFloor.
  destruct (Z.ltb_spec floor elevator.kMinFloor);
    destruct (Z.gtb_spec floor elevator.kMaxFloor); simpl;
    split; intro; try discriminate; try reflexivity; lia.
Qed.

Lemma addInternalRequest_well_formed (floor : Z) (e : elevator.ElevatorController) :
  elevator.well_formed e ->
  elevator.well_formed (snd (elevator.addInternalRequest floor e)).
Proof.
  intro W. unfold elevator.addInternalRequest.
  destruct (elevator.validateFloor floor) eqn:V; simpl; [|exact W].
  apply validateFloor_Ok in V. destruct W as [Hc [Hr _]].
  apply updateDirection_well_formed; simpl; [exact Hc|].
  intros f [Hf|Hf]; simpl in Hf.
  - apply IntSet.add_spec in Hf. destruct Hf as [Hf|Hf].
    + rewrite Hf. exact V.
    + apply Hr. left. exact Hf.
  - apply Hr. right. exact Hf.
Qed.

Lemma addExternalRequest_well_formed (floor : Z) (e : elevator.ElevatorController) :
  elevator.well_formed e ->
  elevator.well_formed (snd (elevator.addExternalRequest floor e)).
Proof.
  intro W. unfold elevator.addExternalRequest.
  destruct (elevator.validateFloor floor) eqn:V; simpl; [|exact W].
  apply validateFloor_Ok in V. destruct W as [Hc [Hr _]].
  apply updateDirection_well_formed; simpl; [exact Hc|].
  intros f [Hf|Hf]; simpl in Hf.
  - apply Hr. left. exact Hf.
  - apply IntSet.add_spec in Hf. destruct Hf as [Hf|Hf].
    + rewrite Hf. exact V.
    + apply Hr. right. exact Hf.
Qed.

Lemma initial_well_formed : elevator.well_formed elevator.initial.
Proof.
  unfold elevator.well_formed, elevator.initial, elevator.pending. simpl.
  assert (He : forall f, ~ (IntSet.In f IntSet.empty \/ IntSet.In f IntSet.empty)).
  { intros f [H|H]; exact (IntSet.empty_spec H). }
  unfold elevator.kMinFloor, elevator.kMaxFloor.
  split; [lia|]. split; [|split].
  - intros f H. exfalso. exact (He f H).
  - apply He.
  - exact He.
Qed.

(** ** One step of a well-formed controller *)

Lemma move_UP_facts (e : elevator.ElevatorController) :
  elevator.well_formed e -> elevator.direction_ e = elevator.UP ->
  elevator.current_floor_ (elevator.move e) = elevator.current_floor_ e + 1 /\
  (forall f, elevator.pending (elevator.move e) f <->
             elevator.pending e f /\ f <> elevator.current_floor_ e + 1) /\
  (forall h, elevator.pending e h -> elevator.current_floor_ e + 1 < h ->
             elevator.direction_ (elevator.move e) = elevator.UP).
Proof.
  intros W D. pose proof (proj1 (well_formed_room e W) D) as Hroom.
  destruct W as [Hc [Hr [Hn Hd]]].
  rewrite (move_UP e D Hroom). split; [|split].
  - rewrite (proj1 (updateDirection_fields _)). reflexivity.
  - intro f. rewrite pending_step. split.
    + tauto.
    + intros [Hp Hf]. repeat split; try assumption.
      intro E. subst f. contradiction.
  - intros h Hp Hh. apply updateDirection_keeps_UP.
    + exact D.
    + exists h. split; [|simpl; exact Hh].
      apply pending_erase_current. simpl. split; [|lia].
      change (elevator.pending (elevator.erase_current e) h).
      apply pending_erase_current. split; [exact Hp | lia].
Qed.

Lemma move_DOWN_facts (e : elevator.ElevatorController) :
  elevator.well_formed e -> elevator.direction_ e = elevator.DOWN ->
  elevator.current_floor_ (elevator.move e) = elevator.current_floor_ e - 1 /\
  (forall f, elevator.pending (elevator.move e) f <->
             elevator.pending e f /\ f <> elevator.current_floor_ e - 1) /\
  (forall l, elevator.pending e l -> l < elevator.current_floor_ e - 1 ->
             elevator.direction_ (elevator.move e) = elevator.DOWN).
Proof.
  intros W D. pose proof (proj2 (well_formed_room e W) D) as Hroom.
  destruct W as [Hc [Hr [Hn Hd]]].
  rewrite (move_DOWN e D Hroom). split; [|split].
  - rewrite (proj1 (updateDirection_fields _)). reflexivity.
  - intro f. rewrite pending_step. split.
    + tauto.
    + intros [Hp Hf]. repeat split; try assumption.
      intro E. subst f. contradiction.
  - intros l Hp Hl. apply updateDirection_keeps_DOWN.
    + exact D.
    + exists l. split; [|simpl; exact Hl].
      apply pending_erase_current. simpl. split; [|lia].
      change (elevator.pending (elevator.erase_current e) l).
      apply pending_erase_current. split; [exact Hp | lia].
Qed.

(** ** Sweeps *)

Lemma moves_add (a b : nat) (e : elevator.ElevatorController) :
  elevator.moves (a + b) e = elevator.moves b (elevator.moves a e).
Proof.
  revert e. induction a as [|a IH]; intro e; simpl; [reflexivity | apply IH].
Qed.

Lemma moves_well_formed (n : nat) (e : elevator.ElevatorController) :
  elevator.well_formed e -> elevator.well_formed (elevator.moves n e).
Proof.
  revert e. induction n as [|n IH]; intros e W; simpl;
    [exact W | apply IH, move_well_formed, W].
Qed.

(** Going up to the highest pending floor, [k] floors away: the controller
    passes every floor on the way and is left with the requests that were
    below it. *)
Lemma sweep_up (k : nat) : forall e : elevator.ElevatorController,
  elevator.well_formed e ->
  (k <> 0%nat -> elevator.direction_ e = elevator.UP) ->
  (forall f, elevator.pending e f ->
             f <= elevator.current_floor_ e + Z.of_nat k) ->
  (k <> 0%nat ->
   elevator.pending e (elevator.current_floor_ e + Z.of_nat k)) ->
  (forall j, (j <= k)%nat ->
     elevator.current_floor_ (elevator.moves j e) =
       elevator.current_floor_ e + Z.of_nat j) /\
  (forall f, elevator.pending (elevator.moves k e) f <->
             elevator.pending e f /\ f < elevator.current_floor_ e).
Proof.
  induction k as [|k IH]; intros e W Hdir Hmax Htop.
  - split.
    + intros j Hj. replace j with 0%nat by lia. simpl. lia.
    + intro f. simpl. split; [|tauto]. intro Hp. split; [exact Hp|].
      destruct W as [_ [_ [Hn _]]]. specialize (Hmax f Hp).
      assert (f <> elevator.current_floor_ e)
        by (intro E; subst f; contradiction).
      lia.
  - assert (D : elevator.direction_ e = elevator.UP) by (apply Hdir; lia).
    destruct (move_UP_facts e W D) as [F1 [F2 F3]].
    assert (Hn : ~ elevator.pending e (elevator.current_floor_ e))
      by (destruct W as [_ [_ [Hn _]]]; exact Hn).
    specialize (Htop ltac:(lia)).
    destruct (IH (elevator.move e)) as [G1 G2].
    + apply move_well_formed. exact W.
    + intro Hk. apply (F3 (elevator.current_floor_ e + Z.of_nat (S k)));
        [exact Htop | lia].
    + intros f Hp. apply F2 in Hp. destruct Hp as [Hp Hne].
      specialize (Hmax f Hp). lia.
    + intro Hk. apply F2. split; [|lia].
      replace (elevator.current_floor_ (elevator.move e) + Z.of_nat k)
        with (elevator.current_floor_ e + Z.of_nat (S k)) by lia.
      exact Htop.
    + split.
      * intros j Hj. destruct j as [|j]; [simpl; lia|].
        simpl. rewrite G1 by lia. lia.
      * intro f. simpl. rewrite G2, F2, F1. split.
        -- intros [[Hp Hne] Hlt]. split; [exact Hp|].
           assert (f <> elevator.current_floor_ e)
             by (intro E; subst f; contradiction).
           lia.
        -- intros [Hp Hlt]. repeat split; [exact Hp | lia | lia].
Qed.

Lemma sweep_down (k : nat) : forall e : elevator.ElevatorController,
  elevator.well_formed e ->
  (k <> 0%nat -> elevator.direction_ e = elevator.DOWN) ->
  (forall f, elevator.pending e f ->
             elevator.current_floor_ e - Z.of_nat k <= f) ->
  (k <> 0%nat ->
   elevator.pending e (elevator.current_floor_ e - Z.of_nat k)) ->
  (forall j, (j <= k)%nat ->
     elevator.current_floor_ (elevator.moves j e) =
       elevator.current_floor_ e - Z.of_nat j) /\
  (forall f, elevator.pending (elevator.moves k e) f <->
             elevator.pending e f /\ elevator.current_floor_ e < f).
Proof.
  induction k as [|k IH]; intros e W Hdir Hmin Hbot.
  - split.
    + intros j Hj. replace j with 0%nat by lia. simpl. lia.
    + intro f. simpl. split; [|tauto]. intro Hp. split; [exact Hp|].
      destruct W as [_ [_ [Hn _]]]. specialize (Hmin f Hp).
      assert (f <> elevator.current_floor_ e)
        by (intro E; subst f; contradiction).
      lia.
  - assert (D : elevator.direction_ e = elevator.DOWN) by (apply Hdir; lia).
    destruct (move_DOWN_facts e W D) as [F1 [F2 F3]].
    assert (Hn : ~ elevator.pending e (elevator.current_floor_ e))
      by (destruct W as [_ [_ [Hn _]]]; exact Hn).
    specialize (Hbot ltac:(lia)).
    destruct (IH (elevator.move e)) as [G1 G2].
    + apply move_well_formed. exact W.
    + intro Hk. apply (F3 (elevator.current_floor_ e - Z.of_nat (S k)));
        [exact Hbot | lia].
    + intros f Hp. apply F2 in Hp. destruct Hp as [Hp Hne].
      specialize (Hmin f Hp). lia.
    + intro Hk. apply F2. split; [|lia].
      replace (elevator.current_floor_ (elevator.move e) - Z.of_nat k)
        with (elevator.current_floor_ e - Z.of_nat (S k)) by lia.
      exact Hbot.
    + split.
      * intros j Hj. destruct j as [|j]; [simpl; lia|].
        simpl. rewrite G1 by lia. lia.
      * intro f. simpl. rewrite G2, F2, F1. split.
        -- intros [[Hp Hne] Hlt]. split; [exact Hp|].
           assert (f <> elevator.current_floor_ e)
             by (intro E; subst f; contradiction).
           lia.
        -- intros [Hp Hlt]. repeat split; [exact Hp | lia | lia].
Qed.

(** ** Serving every request *)

Lemma pending_union (e : elevator.ElevatorController) (f : Z) :
  elevator.pending e f <->
  IntSet.In f (IntSet.union (elevator.internal_requests_ e)
                            (elevator.external_requests_ e)).
Proof. unfold elevator.pending. rewrite IntSet.union_spec. tauto. Qed.

Lemma highest_pending (e : elevator.ElevatorController) :
  (exists f, elevator.pending e f) ->
  exists h, elevator.pending e h /\ forall f, elevator.pending e f -> f <= h.
Proof.
  intros [f0 H0]. apply pending_union in H0.
  destruct (IntSet.max_elt (IntSet.union (elevator.internal_requests_ e)
                                         (elevator.external_requests_ e)))
    as [h|] eqn:M.
  - exists h. split.
    + apply pending_union. apply IntSet.max_elt_spec1. exact M.
    + intros f Hf. apply pending_union in Hf.
      pose proof (IntSet.max_elt_spec2 M Hf) as Hnlt.
      apply Z.nlt_ge in Hnlt. exact Hnlt.
  - apply IntSet.max_elt_spec3 in M. exfalso. exact (M f0 H0).
Qed.

Lemma lowest_pending (e : elevator.ElevatorController) :
  (exists f, elevator.pending e f) ->
  exists l, elevator.pending e l /\ forall f, elevator.pending e f -> l <= f.
Proof.
  intros [f0 H0]. apply pending_union in H0.
  destruct (IntSet.min_elt (IntSet.union (elevator.internal_requests_ e)
                                         (elevator.external_requests_ e)))
    as [l|] eqn:M.
  - exists l. split.
    + apply pending_union. apply IntSet.min_elt_spec1. exact M.
    + intros f Hf. apply pending_union in Hf.
      pose proof (IntSet.min_elt_spec2 M Hf) as Hnlt.
      apply Z.nlt_ge in Hnlt. exact Hnlt.
  - apply IntSet.min_elt_spec3 in M. exfalso. exact (M f0 H0).
Qed.

Lemma nothing_pending (e : elevator.ElevatorController) :
  elevator.well_formed e -> (forall f, ~ elevator.pending e f) ->
  elevator.hasRequests e = false /\ elevator.direction_ e = elevator.IDLE.
Proof.
  intros [_ [_ [_ Hd]]] Hnone. split.
  - destruct (elevator.hasRequests e) eqn:E; [|reflexivity].
    apply hasRequests_spec in E. destruct E as [f Hf].
    exfalso. exact (Hnone f Hf).
  - destruct (elevator.direction_ e); [| |reflexivity];
      destruct Hd as [f [Hf _]]; exfalso; exact (Hnone f Hf).
Qed.

(** Going down with nothing pending above serves everything. *)
Lemma finish_down (e : elevator.ElevatorController) :
  elevator.well_formed e -> elevator.direction_ e = elevator.DOWN ->
  (forall f, elevator.pending e f -> f < elevator.current_floor_ e) ->
  exists N, (N <= 8)%nat /\
    (forall f, ~ elevator.pending (elevator.moves N e) f) /\
    (forall f, elevator.pending e f ->
       exists j, (j <= N)%nat /\ elevator.current_floor_ (elevator.moves j e) = f).
Proof.
  intros W D Hbelow. pose proof W as [Hc [Hr [Hn Hd]]].
  rewrite D in Hd. destruct Hd as [f0 [Hf0 _]].
  destruct (lowest_pending e (ex_intro _ f0 Hf0)) as [l [Hl Hmin]].
  pose proof (Hr l Hl) as Hlr. pose proof (Hbelow l Hl) as Hlc.
  unfold elevator.kMinFloor, elevator.kMaxFloor in *.
  set (k := Z.to_nat (elevator.current_floor_ e - l)).
  destruct (sweep_down k e W) as [G1 G2].
  - intros _. exact D.
  - intros f Hf. specialize (Hmin f Hf). lia.
  - intros _.
    replace (elevator.current_floor_ e - Z.of_nat k) with l by lia. exact Hl.
  - exists k. split; [lia|]. split.
    + intros f Hf. apply G2 in Hf. destruct Hf as [Hf Hgt].
      specialize (Hbelow f Hf). lia.
    + intros f Hf. pose proof (Hmin f Hf). pose proof (Hbelow f Hf).
      exists (Z.to_nat (elevator.current_floor_ e - f)). split; [lia|].
      rewrite G1 by lia. lia.
Qed.

Lemma finish_up (e : elevator.ElevatorController) :
  elevator.well_formed e -> elevator.direction_ e = elevator.UP ->
  (forall f, elevator.pending e f -> elevator.current_floor_ e < f) ->
  exists N, (N <= 8)%nat /\
    (forall f, ~ elevator.pending (elevator.moves N e) f) /\
    (forall f, elevator.pending e f ->
       exists j, (j <= N)%nat /\ elevator.current_floor_ (elevator.moves j e) = f).
Proof.
  intros W D Habove. pose proof W as [Hc [Hr [Hn Hd]]].
  rewrite D in Hd. destruct Hd as [f0 [Hf0 _]].
  destruct (highest_pending e (ex_intro _ f0 Hf0)) as [h [Hh Hmax]].
  pose proof (Hr h Hh) as Hhr. pose proof (Habove h Hh) as Hhc.
  unfold elevator.kMinFloor, elevator.kMaxFloor in *.
  set (k := Z.to_nat (h - elevator.current_floor_ e)).
  destruct (sweep_up k e W) as [G1 G2].
  - intros _. exact D.
  - intros f Hf. specialize (Hmax f Hf). lia.
  - intros _.
    replace (elevator.current_floor_ e + Z.of_nat k) with h by lia. exact Hh.
  - exists k. split; [lia|]. split.
    + intros f Hf. apply G2 in Hf. destruct Hf as [Hf Hlt].
      specialize (Habove f Hf). lia.
    + intros f Hf. pose proof (Hmax f Hf). pose proof (Habove f Hf).
      exists (Z.to_nat (f - elevator.current_floor_ e)). split; [lia|].
      rewrite G1 by lia. lia.
Qed.

(** From any well-formed controller, at most 15 moves serve every pending
    request: the controller stands at each requested floor on the way, and
    ends with nothing pending. *)
Lemma serves_everything (e : elevator.ElevatorController) :
  elevator.well_formed e ->
  exists N, (N <= 15)%nat /\
    (forall f, ~ elevator.pending (elevator.moves N e) f) /\
    (forall f, elevator.pending e f ->
       exists j, (j <= N)%nat /\ elevator.current_floor_ (elevator.moves j e) = f).
Proof.
  intro W. pose proof W as [Hc [Hr [Hn Hd]]].
  unfold elevator.kMinFloor, elevator.kMaxFloor in *.
  destruct (elevator.direction_ e) eqn:D.
  - (* UP: to the highest request, then down for the rest *)
    destruct Hd as [f0 [Hf0 Hgt0]].
    destruct (highest_pending e (ex_intro _ f0 Hf0)) as [h [Hh Hmax]].
    pose proof (Hr h Hh) as Hhr. pose proof (Hmax f0 Hf0) as Hh0.
    set (k := Z.to_nat (h - elevator.current_floor_ e)).
    destruct (sweep_up k e W) as [G1 G2].
    { intros _. exact D. }
    { intros f Hf. specialize (Hmax f Hf). lia. }
    { intros _.
      replace (elevator.current_floor_ e + Z.of_nat k) with h by lia. exact Hh. }
    pose proof (moves_well_formed k e W) as W1.
    assert (F1 : elevator.current_floor_ (elevator.moves k e) = h)
      by (rewrite G1 by lia; lia).
    assert (Hup : forall f, elevator.pending e f ->
                    elevator.current_floor_ e < f ->
                    exists j, (j <= k)%nat /\
                      elevator.current_floor_ (elevator.moves j e) = f).
    { intros f Hf Hgt. pose proof (Hmax f Hf).
      exists (Z.to_nat (f - elevator.current_floor_ e)). split; [lia|].
      rewrite G1 by lia. lia. }
    destruct (elevator.direction_ (elevator.moves k e)) eqn:D1.
    + exfalso. destruct W1 as [_ [_ [_ Hd1]]]. rewrite D1 in Hd1.
      destruct Hd1 as [f [Hf Hgt]]. apply G2 in Hf. lia.
    + assert (Hk7 : (k <= 7)%nat).
      { pose proof W1 as [_ [_ [_ Hx]]]. rewrite D1 in Hx.
        destruct Hx as [f [Hf _]]. apply G2 in Hf. destruct Hf as [Hf Hlt].
        pose proof (Hr f Hf). lia. }
      destruct (finish_down (elevator.moves k e) W1 D1) as [N [HN [Hnone Hvis]]].
      { intros f Hf. apply G2 in Hf. lia. }
      exists (k + N)%nat. split; [lia|]. split.
      * intro f. rewrite moves_add. apply Hnone.
      * intros f Hf.
        destruct (Z.lt_trichotomy f (elevator.current_floor_ e)) as [Hl|[He|Hg]].
        -- destruct (Hvis f) as [j [Hj Hfl]]; [apply G2; tauto|].
           exists (k + j)%nat. split; [lia|]. rewrite moves_add. exact Hfl.
        -- subst f. contradiction.
        -- destruct (Hup f Hf Hg) as [j [Hj Hfl]].
           exists j. split; [lia | exact Hfl].
    + destruct W1 as [_ [_ [_ Hd1]]]. rewrite D1 in Hd1.
      exists k. split; [lia|]. split; [exact Hd1|].
      intros f Hf.
      destruct (Z.lt_trichotomy f (elevator.current_floor_ e)) as [Hl|[He|Hg]].
      * exfalso. apply (Hd1 f). apply G2. tauto.
      * subst f. contradiction.
      * exact (Hup f Hf Hg).
  - (* DOWN: to the lowest request, then up for the rest *)
    destruct Hd as [f0 [Hf0 Hlt0]].
    destruct (lowest_pending e (ex_intro _ f0 Hf0)) as [l [Hl Hmin]].
    pose proof (Hr l Hl) as Hlr. pose proof (Hmin f0 Hf0) as Hl0.
    set (k := Z.to_nat (elevator.current_floor_ e - l)).
    destruct (sweep_down k e W) as [G1 G2].
    { intros _. exact D. }
    { intros f Hf. specialize (Hmin f Hf). lia. }
    { intros _.
      replace (elevator.current_floor_ e - Z.of_nat k) with l by lia. exact Hl. }
    pose proof (moves_well_formed k e W) as W1.
    assert (F1 : elevator.current_floor_ (elevator.moves k e) = l)
      by (rewrite G1 by lia; lia).
    assert (Hdn : forall f, elevator.pending e f ->
                    f < elevator.current_floor_ e ->
                    exists j, (j <= k)%nat /\
                      elevator.current_floor_ (elevator.moves j e) = f).
    { intros f Hf Hlt. pose proof (Hmin f Hf).
      exists (Z.to_nat (elevator.current_floor_ e - f)). split; [lia|].
      rewrite G1 by lia. lia. }
    destruct (elevator.direction_ (elevator.moves k e)) eqn:D1.
    + assert (Hk7 : (k <= 7)%nat).
      { pose proof W1 as [_ [_ [_ Hx]]]. rewrite D1 in Hx.
        destruct Hx as [f [Hf _]]. apply G2 in Hf. destruct Hf as [Hf Hgt].
        pose proof (Hr f Hf). lia. }
      destruct (finish_up (elevator.moves k e) W1 D1) as [N [HN [Hnone Hvis]]].
      { intros f Hf. apply G2 in Hf. lia. }
      exists (k + N)%nat. split; [lia|]. split.
      * intro f. rewrite moves_add. apply Hnone.
      * intros f Hf.
        destruct (Z.lt_trichotomy f (elevator.current_floor_ e)) as [Hlt|[He|Hg]].
        -- destruct (Hdn f Hf Hlt) as [j [Hj Hfl]].
           exists j. split; [lia | exact Hfl].
        -- subst f. contradiction.
        -- destruct (Hvis f) as [j [Hj Hfl]]; [apply G2; tauto|].
           exists (k + j)%nat. split; [lia|]. rewrite moves_add. exact Hfl.
    + exfalso. destruct W1 as [_ [_ [_ Hd1]]]. rewrite D1 in Hd1.
      destruct Hd1 as [f [Hf Hlt]]. apply G2 in Hf. lia.
    + destruct W1 as [_ [_ [_ Hd1]]]. rewrite D1 in Hd1.
      exists k. split; [lia|]. split; [exact Hd1|].
      intros f Hf.
      destruct (Z.lt_trichotomy f (elevator.current_floor_ e)) as [Hlt|[He|Hg]].
      * exact (Hdn f Hf Hlt).
      * subst f. contradiction.
      * exfalso. apply (Hd1 f). apply G2. tauto.
  - exists 0%nat. split; [lia|]. split; [exact Hd|].
    intros f Hf. exfalso. exact (Hd f Hf).
Qed.

Lemma exec_all_well_formed (ks : list elevator.call) :
  forall e, elevator.well_formed e ->
            elevator.well_formed (elevator.exec_all ks e).
Proof.
  unfold elevator.exec_all.
  induction ks as [|k ks IH]; intros e W; simpl; [exact W|].
  apply IH. destruct k as [floor|floor|]; simpl.
  - apply addInternalRequest_well_formed. exact W.
  - apply addExternalRequest_well_formed. exact W.
  - apply move_well_formed. exact W.
Qed.

(** ** Properties of the elevator controller *)

(** X16.  A request for a floor outside 1..9 is refused with
    [InvalidFloor], from the cabin as from a landing, and changes nothing:
    floor, direction and both request sets stay as they were. *)
Theorem invalid_floor_rejected (floor : Z) (e : elevator.ElevatorController) :
  floor < elevator.kMinFloor \/ elevator.kMaxFloor < floor ->
  elevator.addInternalRequest floor e =
    (elevator.Unexpected elevator.InvalidFloor, e) /\
  elevator.addExternalRequest floor e =
    (elevator.Unexpected elevator.InvalidFloor, e).
Proof.
  intro H.
  assert (V : elevator.validateFloor floor =
              elevator.Unexpected elevator.InvalidFloor).
  { destruct (elevator.validateFloor floor) as [|[]] eqn:V; [|reflexivity].
    apply validateFloor_Ok in V. lia. }
  unfold elevator.addInternalRequest, elevator.addExternalRequest.
  rewrite V. split; reflexivity.
Qed.

Lemma invalid_floor_rejected_witness :
  (elevator.addInternalRequest 10 elevator.initial =
     (elevator.Unexpected elevator.InvalidFloor, elevator.initial) /\
   elevator.addExternalRequest 10 elevator.initial =
     (elevator.Unexpected elevator.InvalidFloor, elevator.initial)) /\
  (elevator.addInternalRequest 0 elevator.initial =
     (elevator.Unexpected elevator.InvalidFloor, elevator.initial) /\
   elevator.addExternalRequest 0 elevator.initial =
     (elevator.Unexpected elevator.InvalidFloor, elevator.initial)).
Proof.
  split.
  - apply (invalid_floor_rejected 10 elevator.initial). right. reflexivity.
  - apply (invalid_floor_rejected 0 elevator.initial). left. reflexivity.
Defined.

Lemma valid_floor_accepted_fields (floor : Z) (e : elevator.ElevatorController) :
  elevator.kMinFloor <= floor <= elevator.kMaxFloor ->
  elevator.current_floor_ (snd (elevator.addInternalRequest floor e)) =
    elevator.current_floor_ e /\
  elevator.current_floor_ (snd (elevator.addExternalRequest floor e)) =
    elevator.current_floor_ e /\
  (forall f, IntSet.In f (elevator.internal_requests_
                            (snd (elevator.addInternalRequest floor e))) <->
             (f = floor \/ IntSet.In f (elevator.internal_requests_ e)) /\
             f <> elevator.current_floor_ e) /\
  (forall f, IntSet.In f (elevator.external_requests_
                            (snd (elevator.addInternalRequest floor e))) <->
             IntSet.In f (elevator.external_requests_ e) /\
             f <> elevator.current_floor_ e) /\
  (forall f, IntSet.In f (elevator.internal_requests_
                            (snd (elevator.addExternalRequest floor e))) <->
             IntSet.In f (elevator.internal_requests_ e) /\
             f <> elevator.current_floor_ e) /\
  (forall f, IntSet.In f (elevator.external_requests_
                            (snd (elevator.addExternalRequest floor e))) <->
             (f = floor \/ IntSet.In f (elevator.external_requests_ e)) /\
             f <> elevator.current_floor_ e).
Proof.
  intros V. apply validateFloor_Ok in V.
  unfold elevator.addInternalRequest, elevator.addExternalRequest.
  rewrite V. simpl snd.
  match goal with
  | |- context [elevator.updateDirection ?x] =>
      destruct (updateDirection_fields x) as [A1 [A2 A3]]
  end.
  rewrite A1, A2, A3. clear A1 A2 A3.
  match goal with
  | |- context [elevator.updateDirection ?x] =>
      destruct (updateDirection_fields x) as [A1 [A2 A3]]
  end.
  rewrite A1, A2, A3. clear A1 A2 A3. simpl.
  split; [reflexivity|]. split; [reflexivity|].
  repeat split; intros;
    repeat (rewrite IntSet.remove_spec in * || rewrite IntSet.add_spec in * );
    tauto.
Qed.

(** X17.  A request for a floor in 1..9 is accepted.  The floor is added to
    the set it was made for unless the elevator stands at it, the current
    floor is removed from both sets, and the elevator does not move. *)
Theorem valid_floor_accepted (floor : Z) (e : elevator.ElevatorController) :
  elevator.kMinFloor <= floor <= elevator.kMaxFloor ->
  let cur := elevator.current_floor_ e in
  let ei := snd (elevator.addInternalRequest floor e) in
  let ee := snd (elevator.addExternalRequest floor e) in
  fst (elevator.addInternalRequest floor e) = elevator.Ok /\
  fst (elevator.addExternalRequest floor e) = elevator.Ok /\
  elevator.current_floor_ ei = cur /\
  elevator.current_floor_ ee = cur /\
  (forall f, IntSet.In f (elevator.internal_requests_ ei) <->
             (f = floor \/ IntSet.In f (elevator.internal_requests_ e)) /\ f <> cur) /\
  (forall f, IntSet.In f (elevator.external_requests_ ei) <->
             IntSet.In f (elevator.external_requests_ e) /\ f <> cur) /\
  (forall f, IntSet.In f (elevator.internal_requests_ ee) <->
             IntSet.In f (elevator.internal_requests_ e) /\ f <> cur) /\
  (forall f, IntSet.In f (elevator.external_requests_ ee) <->
             (f = floor \/ IntSet.In f (elevator.external_requests_ e)) /\ f <> cur).
Proof.
  intros V cur ei ee.
  pose proof (proj2 (validateFloor_Ok floor) V) as Vok.
  split; [unfold elevator.addInternalRequest; rewrite Vok; reflexivity|].
  split; [unfold elevator.addExternalRequest; rewrite Vok; reflexivity|].
  exact (valid_floor_accepted_fields floor e V).
Qed.

Lemma valid_floor_accepted_witness :
  fst (elevator.addInternalRequest 3 elevator.initial) = elevator.Ok /\
  IntSet.In 3 (elevator.internal_requests_
                 (snd (elevator.addInternalRequest 3 elevator.initial))).
Proof.
  destruct (valid_floor_accepted 3 elevator.initial
              ltac:(vm_compute; split; discriminate))
    as [H1 [_ [_ [_ [H5 _]]]]].
  split; [exact H1|].
  apply H5. split; [left; reflexivity | vm_compute; discriminate].
Defined.

(** X18.  Whatever sequence of requests and moves the controller has gone
    through since construction: the elevator is at a floor in 1..9, every
    pending request is for a floor in 1..9, no request is pending for the
    floor the elevator stands at, the direction is [IDLE] exactly when
    nothing is pending, [UP] only with a request above and [DOWN] only with
    a request below. *)
Theorem elevator_invariant (ks : list elevator.call) :
  let e := elevator.exec_all ks elevator.initial in
  elevator.kMinFloor <= elevator.getCurrentFloor e <= elevator.kMaxFloor /\
  (forall f, elevator.pending e f ->
             elevator.kMinFloor <= f <= elevator.kMaxFloor) /\
  ~ elevator.pending e (elevator.getCurrentFloor e) /\
  elevator.hasRequests e =
    match elevator.getCurrentDirection e with
    | elevator.IDLE => false
    | _ => true
    end /\
  match elevator.getCurrentDirection e with
  | elevator.UP => elevator.hasRequestsAbove e = true
  | elevator.DOWN => elevator.hasRequestsBelow e = true
  | elevator.IDLE => True
  end.
Proof.
  intro e.
  pose proof (exec_all_well_formed ks elevator.initial initial_well_formed) as W.
  fold e in W. pose proof W as [Hc [Hr [Hn Hd]]].
  unfold elevator.getCurrentFloor, elevator.getCurrentDirection.
  split; [exact Hc|]. split; [exact Hr|]. split; [exact Hn|].
  destruct (elevator.direction_ e) eqn:D.
  - split.
    + apply hasRequests_spec. destruct Hd as [f [Hf _]]. exists f. exact Hf.
    + apply hasRequestsAbove_spec. exact Hd.
  - split.
    + apply hasRequests_spec. destruct Hd as [f [Hf _]]. exists f. exact Hf.
    + apply hasRequestsBelow_spec. exact Hd.
  - split; [|exact I]. apply (nothing_pending e W Hd).
Qed.

Lemma elevator_invariant_witness :
  elevator.kMinFloor <= 5 <= elevator.kMaxFloor.
Proof.
  apply (proj1 (proj2 (elevator_invariant
           [elevator.Call_addExternalRequest 5; elevator.Call_move;
            elevator.Call_addInternalRequest 12;
            elevator.Call_addInternalRequest 1])) 5).
  right. apply IntSet.mem_spec. vm_compute. reflexivity.
Defined.

(** X19.  In every controller reached since construction, [move] takes the
    elevator exactly one floor in its direction, and nowhere when idle: the
    bound checks of [move] never hold it back. *)
Theorem move_one_floor (ks : list elevator.call) :
  let e := elevator.exec_all ks elevator.initial in
  elevator.getCurrentFloor (elevator.move e) =
    match elevator.getCurrentDirection e with
    | elevator.UP => elevator.getCurrentFloor e + 1
    | elevator.DOWN => elevator.getCurrentFloor e - 1
    | elevator.IDLE => elevator.getCurrentFloor e
    end.
Proof.
  intro e.
  pose proof (exec_all_well_formed ks elevator.initial initial_well_formed) as W.
  fold e in W. unfold elevator.getCurrentFloor, elevator.getCurrentDirection.
  destruct (elevator.direction_ e) eqn:D.
  - exact (proj1 (move_UP_facts e W D)).
  - exact (proj1 (move_DOWN_facts e W D)).
  - rewrite (move_IDLE e D). reflexivity.
Qed.

(** X20.  [move] adds no request, and removes from each set only the floor
    the elevator leaves and the floor it reaches; an idle [move] removes
    nothing. *)
Theorem move_keeps_requests (e : elevator.ElevatorController) (f : Z) :
  (IntSet.In f (elevator.internal_requests_ (elevator.move e)) <->
   IntSet.In f (elevator.internal_requests_ e) /\
   (elevator.direction_ e = elevator.IDLE \/
    (f <> elevator.current_floor_ e /\
     f <> elevator.current_floor_ (elevator.move e)))) /\
  (IntSet.In f (elevator.external_requests_ (elevator.move e)) <->
   IntSet.In f (elevator.external_requests_ e) /\
   (elevator.direction_ e = elevator.IDLE \/
    (f <> elevator.current_floor_ e /\
     f <> elevator.current_floor_ (elevator.move e)))).
Proof.
  unfold elevator.move.
  destruct (elevator.direction_ e) eqn:D; simpl; rewrite ?D.
  - destruct (elevator.current_floor_ e <? elevator.kMaxFloor);
      match goal with
      | |- context [elevator.updateDirection ?x] =>
          destruct (updateDirection_fields x) as [A1 [A2 A3]]
      end; rewrite A1, A2, A3; simpl;
      rewrite !IntSet.remove_spec;
      (split; (split;
        [ intros; split; [tauto | right; tauto]
        | intros [Hin [Hx|Hx]]; [discriminate Hx | tauto] ])).
  - destruct (elevator.current_floor_ e >? elevator.kMinFloor);
      match goal with
      | |- context [elevator.updateDirection ?x] =>
          destruct (updateDirection_fields x) as [A1 [A2 A3]]
      end; rewrite A1, A2, A3; simpl;
      rewrite !IntSet.remove_spec;
      (split; (split;
        [ intros; split; [tauto | right; tauto]
        | intros [Hin [Hx|Hx]]; [discriminate Hx | tauto] ])).
  - tauto.
Qed.

(** X21.  An idle elevator sets out towards the floor it is asked for: up
    when the floor is above, down when it is below, and it stays idle when
    it already stands there.  This holds for requests from the cabin and
    from a landing, in every controller reached since construction. *)
Theorem idle_picks_direction (ks : list elevator.call) (floor : Z) :
  let e := elevator.exec_all ks elevator.initial in
  elevator.getCurrentDirection e = elevator.IDLE ->
  elevator.kMinFloor <= floor <= elevator.kMaxFloor ->
  let d := match floor ?= elevator.getCurrentFloor e with
           | Gt => elevator.UP
           | Lt => elevator.DOWN
           | Eq => elevator.IDLE
           end in
  elevator.getCurrentDirection (snd (elevator.addInternalRequest floor e)) = d /\
  elevator.getCurrentDirection (snd (elevator.addExternalRequest floor e)) = d.
Proof.
  intros e D V d.
  pose proof (exec_all_well_formed ks elevator.initial initial_well_formed) as W.
  fold e in W. unfold elevator.getCurrentDirection, elevator.getCurrentFloor in *.
  pose proof W as [_ [_ [_ Hd]]]. rewrite D in Hd.
  assert (Hgen : forall e',
            elevator.well_formed e' ->
            elevator.current_floor_ e' = elevator.current_floor_ e ->
            (forall f, elevator.pending e' f <->
                       f = floor /\ f <> elevator.current_floor_ e) ->
            elevator.direction_ e' = d).
  { intros e' [_ [_ [_ Hd']]] Hfl Hp. unfold d.
    destruct (Z.compare_spec floor (elevator.current_floor_ e)) as [Heq|Hlt|Hgt];
      destruct (elevator.direction_ e') eqn:D'; try reflexivity; exfalso;
      try (destruct Hd' as [f [Hf Hcmp]]; apply Hp in Hf; rewrite Hfl in Hcmp; lia);
      apply (Hd' floor); apply Hp; (split; [reflexivity | lia]). }
  destruct (valid_floor_accepted_fields floor e V)
    as [Fi [Fe [Ii [Ei [Ie Ee]]]]].
  split; apply Hgen.
  - apply addInternalRequest_well_formed. exact W.
  - exact Fi.
  - intro f. unfold elevator.pending. rewrite Ii, Ei. split.
    + intros [[[H|H] Hne]|[H Hne]]; try tauto; exfalso; apply (Hd f);
        [left | right]; exact H.
    + intros [H Hne]. left. tauto.
  - apply addExternalRequest_well_formed. exact W.
  - exact Fe.
  - intro f. unfold elevator.pending. rewrite Ie, Ee. split.
    + intros [[H Hne]|[[H|H] Hne]]; try tauto; exfalso; apply (Hd f);
        [left | right]; exact H.
    + intros [H Hne]. right. tauto.
Qed.

Lemma idle_picks_direction_witness :
  elevator.getCurrentDirection
    (snd (elevator.addInternalRequest 2
            (elevator.exec_all
               [elevator.Call_addExternalRequest 3; elevator.Call_move;
                elevator.Call_move] elevator.initial))) = elevator.DOWN /\
  elevator.getCurrentDirection
    (snd (elevator.addExternalRequest 2
            (elevator.exec_all
               [elevator.Call_addExternalRequest 3; elevator.Call_move;
                elevator.Call_move] elevator.initial))) = elevator.DOWN.
Proof.
  apply (idle_picks_direction
           [elevator.Call_addExternalRequest 3; elevator.Call_move;
            elevator.Call_move] 2).
  - vm_compute. reflexivity.
  - vm_compute. split; discriminate.
Defined.

(** X22.  The elevator does not turn round while a request lies ahead: in
    every controller reached since construction, an elevator going up is
    still going up after [move] exactly when a request is pending beyond
    the floor it reaches, and likewise going down. *)
Theorem keeps_direction_while_ahead (ks : list elevator.call) :
  let e := elevator.exec_all ks elevator.initial in
  (elevator.getCurrentDirection e = elevator.UP ->
   (elevator.getCurrentDirection (elevator.move e) = elevator.UP <->
    exists f, elevator.pending e f /\ elevator.getCurrentFloor e + 1 < f)) /\
  (elevator.getCurrentDirection e = elevator.DOWN ->
   (elevator.getCurrentDirection (elevator.move e) = elevator.DOWN <->
    exists f, elevator.pending e f /\ f < elevator.getCurrentFloor e - 1)).
Proof.
  intro e.
  pose proof (exec_all_well_formed ks elevator.initial initial_well_formed) as W.
  fold e in W. pose proof (move_well_formed e W) as [_ [_ [_ Hd1]]].
  unfold elevator.getCurrentFloor, elevator.getCurrentDirection.
  split; intro D.
  - destruct (move_UP_facts e W D) as [F1 [F2 F3]]. split.
    + intro D1. rewrite D1 in Hd1. destruct Hd1 as [f [Hf Hgt]].
      exists f. apply F2 in Hf. rewrite F1 in Hgt. tauto.
    + intros [f [Hf Hgt]]. exact (F3 f Hf Hgt).
  - destruct (move_DOWN_facts e W D) as [F1 [F2 F3]]. split.
    + intro D1. rewrite D1 in Hd1. destruct Hd1 as [f [Hf Hlt]].
      exists f. apply F2 in Hf. rewrite F1 in Hlt. tauto.
    + intros [f [Hf Hlt]]. exact (F3 f Hf Hlt).
Qed.

Lemma keeps_direction_while_ahead_witness :
  elevator.getCurrentDirection
    (elevator.move
       (elevator.exec_all
          [elevator.Call_addExternalRequest 5; elevator.Call_addInternalRequest 3]
          elevator.initial)) = elevator.UP.
Proof.
  apply (proj1 (keeps_direction_while_ahead
                  [elevator.Call_addExternalRequest 5;
                   elevator.Call_addInternalRequest 3])).
  - vm_compute. reflexivity.
  - exists 5. split.
    + right. apply IntSet.mem_spec. vm_compute. reflexivity.
    + vm_compute. reflexivity.
Defined.

(** X23.  The loop [while (ec.hasRequests()) ec.move();] of the demo ends:
    from every controller reached since construction, at most 15 calls of
    [move] leave nothing pending and the elevator idle, and further calls
    of [move] change nothing. *)
Theorem requests_served_within_15_moves (ks : list elevator.call) :
  let e := elevator.exec_all ks elevator.initial in
  exists N, (N <= 15)%nat /\
    elevator.hasRequests (elevator.moves N e) = false /\
    elevator.getCurrentDirection (elevator.moves N e) = elevator.IDLE /\
    forall n, elevator.moves n (elevator.moves N e) = elevator.moves N e.
Proof.
  intro e.
  pose proof (exec_all_well_formed ks elevator.initial initial_well_formed) as W.
  fold e in W. destruct (serves_everything e W) as [N [HN [Hnone _]]].
  destruct (nothing_pending (elevator.moves N e) (moves_well_formed N e W) Hnone)
    as [HR HD].
  exists N. split; [exact HN|]. split; [exact HR|]. split; [exact HD|].
  intro n. induction n as [|n IH]; simpl; [reflexivity|].
  rewrite (move_IDLE _ HD). exact IH.
Qed.

(** X24.  Every request is served: from every controller reached since
    construction, the elevator stands at each floor with a pending request
    after at most 15 calls of [move]. *)
Theorem every_request_is_served (ks : list elevator.call) (f : Z) :
  let e := elevator.exec_all ks elevator.initial in
  elevator.pending e f ->
  exists j, (j <= 15)%nat /\
    elevator.getCurrentFloor (elevator.moves j e) = f /\
    ~ elevator.pending (elevator.moves j e) f.
Proof.
  intros e Hf.
  pose proof (exec_all_well_formed ks elevator.initial initial_well_formed) as W.
  fold e in W. destruct (serves_everything e W) as [N [HN [_ Hvis]]].
  destruct (Hvis f Hf) as [j [Hj Hfl]].
  exists j. split; [lia|]. split; [exact Hfl|].
  pose proof (moves_well_formed j e W) as [_ [_ [Hn _]]].
  unfold elevator.getCurrentFloor in Hfl. rewrite Hfl in Hn. exact Hn.
Qed.

Lemma every_request_is_served_witness :
  exists j, (j <= 15)%nat /\
    elevator.getCurrentFloor
      (elevator.moves j
         (elevator.exec_all
            [elevator.Call_addExternalRequest 2; elevator.Call_move;
             elevator.Call_addInternalRequest 9; elevator.Call_addExternalRequest 1]
            elevator.initial)) = 1 /\
    ~ elevator.pending
        (elevator.moves j
           (elevator.exec_all
              [elevator.Call_addExternalRequest 2; elevator.Call_move;
               elevator.Call_addInternalRequest 9; elevator.Call_addExternalRequest 1]
              elevator.initial)) 1.
Proof.
  apply (every_request_is_served
           [elevator.Call_addExternalRequest 2; elevator.Call_move;
            elevator.Call_addInternalRequest 9; elevator.Call_addExternalRequest 1] 1).
  right. apply IntSet.mem_spec. vm_compute. reflexivity.
Defined.

(** The bound of 15 moves is reached: at floor 2 going up, with requests
    for floors 9 and 1. *)
Lemma fifteen_moves_needed :
  let e := elevator.exec_all
             [elevator.Call_addExternalRequest 2; elevator.Call_move;
              elevator.Call_addInternalRequest 9; elevator.Call_addExternalRequest 1]
             elevator.initial in
  elevator.hasRequests (elevator.moves 14 e) = true /\
  elevator.hasRequests (elevator.moves 15 e) = false.
Proof. split; vm_compute; reflexivity. Qed.
